(** * WidgetResize: the pointer-driven resize coordinator

    A shallow embedding of
    [packages/ckeditor5-widget/src/widgetresize.js]: the plugin's fields,
    the three pointer listeners, the focus-change listener, the throttled
    redraw, [attachTo], [destroy] and [_getResizerByHandle].

    Objects are modelled by identity (a number): view elements, DOM
    elements and the [Resizer] instances created by [attachTo].  The calls
    the plugin makes on a [Resizer] are collected in order as the output of
    each handler. *)

From stdpp Require Import base option list strings.

(** ** Data *)

Definition ViewElement := nat.
Definition DomElement := nat.
Definition ResizerId := nat.

(** The DOM event data handed to the pointer listeners. *)
Record DomEventData := {
  target : DomElement;
  clientX : Z;
  clientY : Z
}.

(** One item yielded by the walk over a view range ([value.item]) with what
    the focus listener reads from it: its identity, the result of
    [isWidget], its classes and [getAncestors()]. *)
Record ViewNode := {
  identity : ViewElement;
  widget : bool;
  classes : list string;
  ancestors : list ViewElement
}.

(** [ResizerOptions]; the callbacks [onCommit], [getResizeHost] and
    [isCentered] are opaque to the plugin and left out. *)
Record ResizerOptions := {
  modelElement : nat;
  viewElement : ViewElement;
  downcastWriter : nat
}.

(** A [Resizer] instance as far as the plugin touches it. *)
Record Resizer := {
  options : ResizerOptions;
  attached : bool
}.

(** The calls the plugin makes on resizers. *)
Inductive Call :=
| Attach (r : ResizerId)
| Begin (r : ResizerId) (handle : DomElement)
| UpdateSize (r : ResizerId) (d : DomEventData)
| Commit (r : ResizerId)
| Redraw (r : ResizerId).

Global Instance DomEventData_eq_dec : EqDecision DomEventData.
Proof. solve_decision. Defined.
Global Instance ResizerOptions_eq_dec : EqDecision ResizerOptions.
Proof. solve_decision. Defined.
Global Instance Call_eq_dec : EqDecision Call.
Proof. solve_decision. Defined.

Definition isUpdateSize (c : Call) : bool :=
  match c with UpdateSize _ _ => true | _ => false end.

Definition isRedraw (c : Call) : bool :=
  match c with Redraw _ => true | _ => false end.

(** ** The JavaScript [Map]

    [this.resizers] is a [Map]: iteration follows insertion order and
    [set] on a present key replaces the value in place. *)

Definition JsMap (V : Type) := list (ViewElement * V).

Fixpoint map_get {V} (k : ViewElement) (m : JsMap V) : option V :=
  match m with
  | [] => None
  | (k', v) :: m' => if decide (k' = k) then Some v else map_get k m'
  end.

Fixpoint map_set {V} (k : ViewElement) (v : V) (m : JsMap V) : JsMap V :=
  match m with
  | [] => [(k, v)]
  | (k', v') :: m' =>
      if decide (k' = k) then (k, v) :: m' else (k', v') :: map_set k v m'
  end.

Definition map_values {V} (m : JsMap V) : list V := m.*2.

(** ** Emitters

    Modelled from the spec: [EmitterMixin] and [DomEmitterMixin]
    (ckeditor5-utils) are imported by the plugin, not defined in it.  Subscriptions
    are explicit objects on event sources; [listenTo] records which emitter
    listens, [on] is [listenTo] of the source on itself, and
    [stopListening] is the scoped unsubscribe-all of one listening
    emitter. *)

Inductive Emitter :=
| DomDocument | GlobalWindow | EditorUi | DowncastDispatcher | Observer.

Inductive EventName :=
| mousedown | mousemove | mouseup | resize | update | selection.

(** The five listener functions that [init] creates. *)
Inductive Callback :=
| OnMouseDown | OnMouseMove | OnMouseUp | OnSelection | RedrawFocusedResizer.

Record Subscription := {
  listener : Emitter;
  source : Emitter;
  event : EventName;
  callback : Callback
}.

Global Instance Emitter_eq_dec : EqDecision Emitter.
Proof. solve_decision. Defined.
Global Instance EventName_eq_dec : EqDecision EventName.
Proof. solve_decision. Defined.
Global Instance Callback_eq_dec : EqDecision Callback.
Proof. solve_decision. Defined.
Global Instance Subscription_eq_dec : EqDecision Subscription.
Proof. solve_decision. Defined.

Definition listenTo (who src : Emitter) (ev : EventName) (cb : Callback)
    (subs : list Subscription) : list Subscription :=
  subs ++ [{| listener := who; source := src; event := ev; callback := cb |}].

Definition on (src : Emitter) (ev : EventName) (cb : Callback)
    (subs : list Subscription) : list Subscription :=
  listenTo src src ev cb subs.

Definition stopListening (who : Emitter) (subs : list Subscription)
    : list Subscription :=
  filter (λ s, listener s ≠ who) subs.

Definition listenersOf (src : Emitter) (ev : EventName)
    (subs : list Subscription) : list Callback :=
  callback <$> filter (λ s, source s = src ∧ event s = ev) subs.

(** ** Throttle

    Modelled from the spec: [throttle] is imported from lodash-es, not
    defined in the plugin.  It is the leading-triggered,
    trailing-guaranteed rate limiter with a fixed floor interval [wait]:
    the first call of a window runs at once, later calls of the window are
    coalesced and the last of them runs when the window's timer fires.  The
    state machine is lodash's [debounce] with [leading], [trailing] and
    [maxWait = wait].  [timerId] holds the time at which the pending
    timeout is due. *)

Record Throttled (A : Type) := {
  lastArgs : option A;
  lastCallTime : option Z;
  lastInvokeTime : Z;
  timerId : option Z
}.
Arguments lastArgs {A} _.
Arguments lastCallTime {A} _.
Arguments lastInvokeTime {A} _.
Arguments timerId {A} _.

Definition throttle_new {A} : Throttled A :=
  {| lastArgs := None; lastCallTime := None; lastInvokeTime := 0;
     timerId := None |}.

Definition shouldInvoke {A} (wait time : Z) (th : Throttled A) : bool :=
  match lastCallTime th with
  | None => true
  | Some lc =>
      (wait <=? time - lc)%Z || (time - lc <? 0)%Z
      || (wait <=? time - lastInvokeTime th)%Z
  end.

Definition remainingWait {A} (wait time : Z) (th : Throttled A) : Z :=
  let timeSinceLastCall := (time - default 0%Z (lastCallTime th))%Z in
  let timeSinceLastInvoke := (time - lastInvokeTime th)%Z in
  Z.min (wait - timeSinceLastCall) (wait - timeSinceLastInvoke).

(** [invokeFunc]: the second component is the argument the wrapped
    function is run with. *)
Definition invokeFunc {A} (time : Z) (th : Throttled A)
    : Throttled A * option A :=
  ({| lastArgs := None; lastCallTime := lastCallTime th;
      lastInvokeTime := time; timerId := timerId th |},
   lastArgs th).

(** A call of the throttled function at [time]. *)
Definition throttle_call {A} (wait time : Z) (args : A) (th : Throttled A)
    : Throttled A * option A :=
  let isInvoking := shouldInvoke wait time th in
  let th1 := {| lastArgs := Some args; lastCallTime := Some time;
                lastInvokeTime := lastInvokeTime th;
                timerId := timerId th |} in
  if isInvoking then
    match timerId th1 with
    | None => (* leadingEdge *)
        invokeFunc time
          {| lastArgs := lastArgs th1; lastCallTime := lastCallTime th1;
             lastInvokeTime := time; timerId := Some (time + wait)%Z |}
    | Some _ => (* maxing: invocation in a tight loop *)
        invokeFunc time
          {| lastArgs := lastArgs th1; lastCallTime := lastCallTime th1;
             lastInvokeTime := lastInvokeTime th1;
             timerId := Some (time + wait)%Z |}
    end
  else
    match timerId th1 with
    | None =>
        ({| lastArgs := lastArgs th1; lastCallTime := lastCallTime th1;
            lastInvokeTime := lastInvokeTime th1;
            timerId := Some (time + wait)%Z |}, None)
    | Some _ => (th1, None)
    end.

(** [timerExpired], run at [time]. *)
Definition timerExpired {A} (wait time : Z) (th : Throttled A)
    : Throttled A * option A :=
  if shouldInvoke wait time th then
    (* trailingEdge *)
    match lastArgs th with
    | Some _ =>
        invokeFunc time
          {| lastArgs := lastArgs th; lastCallTime := lastCallTime th;
             lastInvokeTime := lastInvokeTime th; timerId := None |}
    | None =>
        ({| lastArgs := None; lastCallTime := lastCallTime th;
            lastInvokeTime := lastInvokeTime th; timerId := None |}, None)
    end
  else
    ({| lastArgs := lastArgs th; lastCallTime := lastCallTime th;
        lastInvokeTime := lastInvokeTime th;
        timerId := Some (time + remainingWait wait time th)%Z |}, None).

(** The host runs a timeout no earlier than it is due. *)
Definition throttle_timer {A} (wait time : Z) (th : Throttled A)
    : Throttled A * option A :=
  match timerId th with
  | Some due => if (due <=? time)%Z then timerExpired wait time th
                else (th, None)
  | None => (th, None)
  end.

(** ** The plugin *)

(** The fields of the plugin instance and the variables captured by the
    closures of [init].  [null] and [undefined] are both [None]: the code
    only tests these slots for truthiness.  [heap] holds the [Resizer]
    instances created so far, a resizer's identity being its index. *)
Record WidgetResize := {
  resizers : JsMap ResizerId;
  _focusedResizer : option ResizerId;
  activeResizer : option ResizerId;
  onMouseMove : Throttled DomEventData;
  redrawFocusedResizer : Throttled unit;
  listeners : list Subscription;
  heap : list Resizer
}.

Definition set_resizers (m : JsMap ResizerId) (s : WidgetResize) :=
  {| resizers := m; _focusedResizer := _focusedResizer s;
     activeResizer := activeResizer s; onMouseMove := onMouseMove s;
     redrawFocusedResizer := redrawFocusedResizer s;
     listeners := listeners s; heap := heap s |}.

Definition set_focusedResizer (r : option ResizerId) (s : WidgetResize) :=
  {| resizers := resizers s; _focusedResizer := r;
     activeResizer := activeResizer s; onMouseMove := onMouseMove s;
     redrawFocusedResizer := redrawFocusedResizer s;
     listeners := listeners s; heap := heap s |}.

Definition set_activeResizer (r : option ResizerId) (s : WidgetResize) :=
  {| resizers := resizers s; _focusedResizer := _focusedResizer s;
     activeResizer := r; onMouseMove := onMouseMove s;
     redrawFocusedResizer := redrawFocusedResizer s;
     listeners := listeners s; heap := heap s |}.

Definition set_onMouseMove (th : Throttled DomEventData) (s : WidgetResize) :=
  {| resizers := resizers s; _focusedResizer := _focusedResizer s;
     activeResizer := activeResizer s; onMouseMove := th;
     redrawFocusedResizer := redrawFocusedResizer s;
     listeners := listeners s; heap := heap s |}.

Definition set_redrawFocusedResizer (th : Throttled unit) (s : WidgetResize) :=
  {| resizers := resizers s; _focusedResizer := _focusedResizer s;
     activeResizer := activeResizer s; onMouseMove := onMouseMove s;
     redrawFocusedResizer := th;
     listeners := listeners s; heap := heap s |}.

Definition set_listeners (l : list Subscription) (s : WidgetResize) :=
  {| resizers := resizers s; _focusedResizer := _focusedResizer s;
     activeResizer := activeResizer s; onMouseMove := onMouseMove s;
     redrawFocusedResizer := redrawFocusedResizer s;
     listeners := l; heap := heap s |}.

Definition set_heap (h : list Resizer) (s : WidgetResize) :=
  {| resizers := resizers s; _focusedResizer := _focusedResizer s;
     activeResizer := activeResizer s; onMouseMove := onMouseMove s;
     redrawFocusedResizer := redrawFocusedResizer s;
     listeners := listeners s; heap := h |}.

(** The events the plugin subscribes to, with their data. *)
Inductive Event :=
| MouseDown (d : DomEventData)
| MouseMove (d : DomEventData)
| MouseUp (d : DomEventData)
| Resize
| Update
| Selection (ranges : list (list ViewNode)).

Definition event_source (e : Event) : Emitter :=
  match e with
  | MouseDown _ | MouseMove _ | MouseUp _ => DomDocument
  | Resize => GlobalWindow
  | Update => EditorUi
  | Selection _ => DowncastDispatcher
  end.

Definition event_name (e : Event) : EventName :=
  match e with
  | MouseDown _ => mousedown
  | MouseMove _ => mousemove
  | MouseUp _ => mouseup
  | Resize => resize
  | Update => update
  | Selection _ => selection
  end.

(** What reaches the plugin: an event fired on one of the sources, one of
    the two throttle timeouts coming due, or a call of its public
    methods. *)
Inductive Input :=
| Dispatch (e : Event)
| MouseMoveTimer
| RedrawTimer
| CallAttachTo (o : ResizerOptions)
| CallDestroy.

Definition isPress (i : Input) : bool :=
  match i with Dispatch (MouseDown _) => true | _ => false end.

Definition isSelectionChange (i : Input) : bool :=
  match i with Dispatch (Selection _) => true | _ => false end.

(** [init]: the fields, and the six subscriptions in the order the code
    makes them.  The call on the model schema does not touch the
    coordinator and is left out; the closure variable [activeResizer]
    starts undefined. *)
Definition init : WidgetResize :=
  {| resizers := [];
     _focusedResizer := None;
     activeResizer := None;
     onMouseMove := throttle_new;
     redrawFocusedResizer := throttle_new;
     listeners :=
       listenTo Observer GlobalWindow resize RedrawFocusedResizer
         (on EditorUi update RedrawFocusedResizer
           (on DowncastDispatcher selection OnSelection
             (listenTo Observer DomDocument mouseup OnMouseUp
               (listenTo Observer DomDocument mousemove OnMouseMove
                 (listenTo Observer DomDocument mousedown OnMouseDown
                    [])))));
     heap := [] |}.

Definition destroy (s : WidgetResize) : WidgetResize :=
  set_listeners (stopListening Observer (listeners s)) s.

(** [attachTo]: [new Resizer( options )], [resizer.attach()],
    [this.resizers.set( options.viewElement, resizer )], [return resizer]. *)
Definition attachTo (o : ResizerOptions) (s : WidgetResize)
    : ResizerId * WidgetResize * list Call :=
  let resizer := length (heap s) in
  let s1 := set_heap (heap s ++ [{| options := o; attached := false |}]) s in
  let s2 := set_heap
              (alter (λ x, {| options := options x; attached := true |})
                 resizer (heap s1)) s1 in
  let s3 := set_resizers (map_set (viewElement o) resizer (resizers s2)) s2 in
  (resizer, s3, [Attach resizer]).

(** The selection walk of the focus listener. *)
Definition resizerClass : string := "ck-widget_with-resizer".

Definition isWidget (node : ViewNode) : bool := widget node.

Definition hasClass (node : ViewNode) (c : string) : bool :=
  bool_decide (c ∈ classes node).

Definition isChild (element : ViewNode) (parent : option ViewNode) : bool :=
  match parent with
  | None => false
  | Some p => bool_decide (identity p ∈ ancestors element)
  end.

(** The state of the walk: [lastMarked] and [focusedResizer]. *)
Definition Walk : Type := option ViewNode * option ResizerId.

Definition walkNode (m : JsMap ResizerId) (w : Walk) (node : ViewNode) : Walk :=
  let '(lastMarked, focusedResizer) := w in
  if isWidget node && negb (isChild node lastMarked)
     && hasClass node resizerClass
  then (Some node,
        match map_get (identity node) m with
        | Some r => Some r
        | None => focusedResizer
        end)
  else w.

Definition walkRanges (m : JsMap ResizerId) (ranges : list (list ViewNode))
    : Walk :=
  fold_left (λ w range, fold_left (walkNode m) range w) ranges (None, None).

Definition onSelection (ranges : list (list ViewNode)) (s : WidgetResize)
    : WidgetResize * list Call :=
  let focusedResizer := (walkRanges (resizers s) ranges).2 in
  (set_focusedResizer focusedResizer s,
   match focusedResizer with Some r => [Redraw r] | None => [] end).

(** The function wrapped by the mousemove throttle. *)
Definition mouseMoveBody (d : DomEventData) (s : WidgetResize)
    : WidgetResize * list Call :=
  match activeResizer s with
  | Some r => (s, [UpdateSize r d])
  | None => (s, [])
  end.

(** The function wrapped by the redraw throttle. *)
Definition redrawBody (s : WidgetResize) : WidgetResize * list Call :=
  match _focusedResizer s with
  | Some r => (s, [Redraw r])
  | None => (s, [])
  end.

Definition onMouseUp (s : WidgetResize) : WidgetResize * list Call :=
  match activeResizer s with
  | Some r => (set_activeResizer None s, [Commit r])
  | None => (s, [])
  end.

Definition throttledMouseMove (time : Z) (d : DomEventData) (s : WidgetResize)
    : WidgetResize * list Call :=
  let '(th, inv) := throttle_call 16 time d (onMouseMove s) in
  let s1 := set_onMouseMove th s in
  match inv with
  | Some a => mouseMoveBody a s1
  | None => (s1, [])
  end.

Definition mouseMoveTimeout (time : Z) (s : WidgetResize)
    : WidgetResize * list Call :=
  let '(th, inv) := throttle_timer 16 time (onMouseMove s) in
  let s1 := set_onMouseMove th s in
  match inv with
  | Some a => mouseMoveBody a s1
  | None => (s1, [])
  end.

Definition throttledRedraw (time : Z) (s : WidgetResize)
    : WidgetResize * list Call :=
  let '(th, inv) := throttle_call 200 time () (redrawFocusedResizer s) in
  let s1 := set_redrawFocusedResizer th s in
  match inv with
  | Some _ => redrawBody s1
  | None => (s1, [])
  end.

Definition redrawTimeout (time : Z) (s : WidgetResize)
    : WidgetResize * list Call :=
  let '(th, inv) := throttle_timer 200 time (redrawFocusedResizer s) in
  let s1 := set_redrawFocusedResizer th s in
  match inv with
  | Some _ => redrawBody s1
  | None => (s1, [])
  end.

(** Modelled from the spec: the resizer's lifecycle state.  The [Resizer]
    class is imported by the plugin, not defined in it; by its contract [begin]
    takes it to [active] and [commit] takes it back to [inactive].
    [isActive cs r] replays the calls [cs] made so far. *)
Definition lifecycle (r : ResizerId) (active : bool) (c : Call) : bool :=
  match c with
  | Begin r' _ => if decide (r' = r) then true else active
  | Commit r' => if decide (r' = r) then false else active
  | _ => active
  end.

Definition isActive (cs : list Call) (r : ResizerId) : bool :=
  fold_left (lifecycle r) cs false.

Section Coordinator.

(** The two predicates of the [Resizer] class the plugin relies on: the
    static [Resizer.isResizeHandle] and the method [containsHandle]. *)
Context (isResizeHandle : DomElement → bool).
Context (containsHandle : ResizerId → DomElement → bool).

Fixpoint firstContaining (domResizeHandle : DomElement)
    (values : list ResizerId) : option ResizerId :=
  match values with
  | [] => None
  | resizer :: rest =>
      if containsHandle resizer domResizeHandle then Some resizer
      else firstContaining domResizeHandle rest
  end.

Definition _getResizerByHandle (s : WidgetResize)
    (domResizeHandle : DomElement) : option ResizerId :=
  firstContaining domResizeHandle (map_values (resizers s)).

Definition onMouseDown (d : DomEventData) (s : WidgetResize)
    : WidgetResize * list Call :=
  if negb (isResizeHandle (target d)) then (s, [])
  else
    let resizeHandle := target d in
    let s1 := set_activeResizer (_getResizerByHandle s resizeHandle) s in
    match activeResizer s1 with
    | Some r => (s1, [Begin r resizeHandle])
    | None => (s1, [])
    end.

(** One listener run on one event at [time]. *)
Definition runCallback (time : Z) (e : Event) (cb : Callback)
    (s : WidgetResize) : WidgetResize * list Call :=
  match cb, e with
  | OnMouseDown, MouseDown d => onMouseDown d s
  | OnMouseMove, MouseMove d => throttledMouseMove time d s
  | OnMouseUp, MouseUp _ => onMouseUp s
  | OnSelection, Selection ranges => onSelection ranges s
  | RedrawFocusedResizer, (Update | Resize) => throttledRedraw time s
  | _, _ => (s, [])
  end.

Fixpoint runCallbacks (time : Z) (e : Event) (cbs : list Callback)
    (s : WidgetResize) : WidgetResize * list Call :=
  match cbs with
  | [] => (s, [])
  | cb :: rest =>
      let '(s1, c1) := runCallback time e cb s in
      let '(s2, c2) := runCallbacks time e rest s1 in
      (s2, c1 ++ c2)
  end.

(** Firing an event runs the callbacks subscribed to it on its source. *)
Definition fire (time : Z) (e : Event) (s : WidgetResize)
    : WidgetResize * list Call :=
  runCallbacks time e
    (listenersOf (event_source e) (event_name e) (listeners s)) s.

Definition step (ti : Z * Input) (s : WidgetResize)
    : WidgetResize * list Call :=
  let '(time, i) := ti in
  match i with
  | Dispatch e => fire time e s
  | MouseMoveTimer => mouseMoveTimeout time s
  | RedrawTimer => redrawTimeout time s
  | CallAttachTo o => let '(_, s1, c) := attachTo o s in (s1, c)
  | CallDestroy => (destroy s, [])
  end.

Fixpoint run (tr : list (Z * Input)) (s : WidgetResize)
    : WidgetResize * list Call :=
  match tr with
  | [] => (s, [])
  | ti :: rest =>
      let '(s1, c1) := step ti s in
      let '(s2, c2) := run rest s1 in
      (s2, c1 ++ c2)
  end.

(** Every press on a recognized handle in [tr] meets an empty
    active-resizer slot. *)
Fixpoint pressesMeetEmptySlot (tr : list (Z * Input)) (s : WidgetResize)
    : bool :=
  match tr with
  | [] => true
  | ti :: rest =>
      match ti.2 with
      | Dispatch (MouseDown d) =>
          (negb (isResizeHandle (target d))
           || bool_decide (activeResizer s = None))
      | _ => true
      end && pressesMeetEmptySlot rest (step ti s).1
  end.

End Coordinator.

(** ** A concrete editor

    Two resizable widgets, view elements 1 and 2.  DOM elements numbered
    from 10 on are resize handles; the resizer with identity [r] owns
    handle [10 + r], so handle 19 belongs to no resizer here. *)

Definition demo_isResizeHandle (h : DomElement) : bool :=
  bool_decide (10 ≤ h)%nat.

Definition demo_containsHandle (r : ResizerId) (h : DomElement) : bool :=
  bool_decide (h = 10 + r)%nat.

Definition pointerAt (h : DomElement) (x : Z) : DomEventData :=
  {| target := h; clientX := x; clientY := 0 |}.

Definition optionsFor (v : ViewElement) : ResizerOptions :=
  {| modelElement := v; viewElement := v; downcastWriter := 0 |}.

Definition press (t : Z) (h : DomElement) : Z * Input :=
  (t, Dispatch (MouseDown (pointerAt h 0))).

Definition move (t : Z) (x : Z) : Z * Input :=
  (t, Dispatch (MouseMove (pointerAt 3 x))).

Definition release (t : Z) : Z * Input :=
  (t, Dispatch (MouseUp (pointerAt 3 0))).

Definition demo_run := run demo_isResizeHandle demo_containsHandle.

Definition demo_step := step demo_isResizeHandle demo_containsHandle.

(** The plugin after [init] and [attachTo] for both widgets. *)
Definition demo_editor : WidgetResize :=
  (demo_run [(0%Z, CallAttachTo (optionsFor 1));
             (0%Z, CallAttachTo (optionsFor 2))] init).1.

(** View nodes: an outer widget 1, widget 2 nested in it, a sibling
    widget 3 and a text node 4, with the classes given. *)
Definition viewWidget (v : ViewElement) (cs : list string)
    (anc : list ViewElement) : ViewNode :=
  {| identity := v; widget := true; classes := cs; ancestors := anc |}.

Definition demo_outer : ViewNode := viewWidget 1 ["ck-widget"; resizerClass] [0].
Definition demo_nested : ViewNode := viewWidget 2 ["ck-widget"; resizerClass] [0; 1].
Definition demo_sibling : ViewNode := viewWidget 3 ["ck-widget"; resizerClass] [0].
Definition demo_text : ViewNode :=
  {| identity := 4; widget := false; classes := []; ancestors := [0] |}.

(** The same editor with the sibling widget 3 registered as well. *)
Definition demo_editor3 : WidgetResize :=
  (demo_run [(0%Z, CallAttachTo (optionsFor 3))] demo_editor).1.

(** Widget 2 when it sits inside widget 3. *)
Definition demo_inner : ViewNode :=
  viewWidget 2 ["ck-widget"; resizerClass] [0; 3].

(** A drag on the handle of the first resizer with two moves 5 ms apart:
    released after the window's timeout, and released before it. *)
Definition demo_drag_late_release : list (Z * Input) :=
  [press 1000 10; move 1100 5; move 1105 9; (1116%Z, MouseMoveTimer);
   release 1120].

Definition demo_drag_early_release : list (Z * Input) :=
  [press 1000 10; move 1100 5; move 1105 9; release 1110;
   (1116%Z, MouseMoveTimer)].

(** A selection over widget 1, the widget 2 nested in it, and the sibling
    widget 3 after them; every element is met at its start and at its
    end. *)
Definition demo_selection : list (list ViewNode) :=
  [[demo_outer; demo_nested; demo_nested; demo_outer;
    demo_sibling; demo_sibling]].

(** The coordinator is wired as [init] left it, or as [destroy] leaves
    that. *)
Definition wired (s : WidgetResize) : Prop :=
  listeners s = listeners init
  ∨ listeners s = stopListening Observer (listeners init).

(** A node that the focus listener takes for a resizable widget. *)
Definition resizerBearing (node : ViewNode) : bool :=
  isWidget node && hasClass node resizerClass.

Definition isLifecycle (c : Call) : bool :=
  match c with Begin _ _ | Commit _ => true | _ => false end.

(** Every resizer that is in its active state is the one in the slot. *)
Definition slotHoldsActive (s : WidgetResize) (cs : list Call) : Prop :=
  ∀ r, isActive cs r = true → activeResizer s = Some r.

(** A burst of move events, and the window [from, upto) that holds their
    times in the order given. *)
Definition moveEvents (moves : list (Z * DomEventData)) : list (Z * Input) :=
  (λ m, (m.1, Dispatch (MouseMove m.2))) <$> moves.

Fixpoint withinWindow (from upto : Z) (moves : list (Z * DomEventData))
    : bool :=
  match moves with
  | [] => true
  | m :: rest =>
      (from <=? m.1)%Z && (m.1 <? upto)%Z && withinWindow m.1 upto rest
  end.

(** The throttle of the move listener in an open window: [w] is the time
    of the last invocation, the last call came at [t] with [d], the timeout
    is due at [due]. *)
Definition pendingMove (w t due : Z) (d : DomEventData)
    : Throttled DomEventData :=
  {| lastArgs := Some d; lastCallTime := Some t; lastInvokeTime := w;
     timerId := Some due |}.

Definition isRelease (i : Input) : bool :=
  match i with Dispatch (MouseUp _) => true | _ => false end.

Definition isAttach (i : Input) : bool :=
  match i with CallAttachTo _ => true | _ => false end.

(** The registry is sound: no view element is listed twice, and every
    registered resizer is an attached resizer that was created for the view
    element it is registered under. *)
Definition registryOk (s : WidgetResize) : Prop :=
  NoDup (resizers s).*1
  ∧ ∀ k r, map_get k (resizers s) = Some r →
      ∃ o, heap s !! r = Some {| options := o; attached := true |}
           ∧ viewElement o = k.

Definition isBeginOf (r : ResizerId) (c : Call) : bool :=
  match c with Begin r' _ => bool_decide (r' = r) | _ => false end.

Definition isCommitOf (r : ResizerId) (c : Call) : bool :=
  match c with Commit r' => bool_decide (r' = r) | _ => false end.

Definition countCalls (p : Call → bool) (cs : list Call) : nat :=
  length (filter (λ c, p c = true) cs).

(** * Properties *)

(** ** The map *)

Lemma map_get_set_eq {V} (k : ViewElement) (v : V) (m : JsMap V) :
  map_get k (map_set k v m) = Some v.
Proof.
  induction m as [|[k' v'] m IH]; simpl.
  - by rewrite decide_True.
  - destruct (decide (k' = k)) as [->|Hne]; simpl.
    + by rewrite decide_True.
    + by rewrite decide_False.
Qed.

Lemma map_get_set_ne {V} (k k0 : ViewElement) (v : V) (m : JsMap V) :
  k0 ≠ k → map_get k0 (map_set k v m) = map_get k0 m.
Proof.
  intros Hne. induction m as [|[k' v'] m IH]; simpl.
  - by rewrite decide_False.
  - destruct (decide (k' = k)) as [->|Hk]; simpl.
    + by rewrite !decide_False.
    + by rewrite IH.
Qed.

Lemma map_set_length_present {V} (k : ViewElement) (v : V) (m : JsMap V) :
  is_Some (map_get k m) → length (map_set k v m) = length m.
Proof.
  induction m as [|[k' v'] m IH]; simpl.
  - intros [? ?]; discriminate.
  - destruct (decide (k' = k)); simpl; [done|]. intros H. by rewrite IH.
Qed.

(** ** Subscriptions *)

Lemma stopListening_idemp (who : Emitter) (subs : list Subscription) :
  stopListening who (stopListening who subs) = stopListening who subs.
Proof.
  unfold stopListening. induction subs as [|x subs IH]; [done|].
  rewrite filter_cons. case_decide as Hx.
  - rewrite filter_cons, decide_True by done. by rewrite IH.
  - done.
Qed.

Lemma stopListening_none (who : Emitter) (subs : list Subscription) :
  Forall (λ x, listener x ≠ who) (stopListening who subs).
Proof.
  unfold stopListening. apply Forall_forall. intros x Hx.
  by apply list_elem_of_filter in Hx as [? _].
Qed.

Section Properties.

Context (isResizeHandle : DomElement → bool).
Context (containsHandle : ResizerId → DomElement → bool).

Local Abbreviation step' := (step isResizeHandle containsHandle).
Local Abbreviation run' := (run isResizeHandle containsHandle).
Local Abbreviation runCallback' := (runCallback isResizeHandle containsHandle).
Local Abbreviation runCallbacks' := (runCallbacks isResizeHandle containsHandle).
Local Abbreviation fire' := (fire isResizeHandle containsHandle).
Local Abbreviation onMouseDown' := (onMouseDown isResizeHandle containsHandle).
Local Abbreviation getResizerByHandle' := (_getResizerByHandle containsHandle).

Lemma run_app (tr1 tr2 : list (Z * Input)) (s : WidgetResize) :
  run' (tr1 ++ tr2) s =
  ((run' tr2 (run' tr1 s).1).1, (run' tr1 s).2 ++ (run' tr2 (run' tr1 s).1).2).
Proof.
  revert s. induction tr1 as [|ti tr1 IH]; intros s; simpl.
  - by destruct (run' tr2 s).
  - destruct (step' ti s) as [s1 c1]. rewrite IH.
    destruct (run' tr1 s1) as [s2 c2]; simpl.
    by rewrite app_assoc.
Qed.

Lemma run_cons (ti : Z * Input) (tr : list (Z * Input)) (s : WidgetResize) :
  run' (ti :: tr) s =
  ((run' tr (step' ti s).1).1, (step' ti s).2 ++ (run' tr (step' ti s).1).2).
Proof.
  simpl. destruct (step' ti s) as [s1 c1]; simpl. by destruct (run' tr s1).
Qed.

Lemma runCallbacks_one (t : Z) (e : Event) (cb : Callback) (s : WidgetResize) :
  runCallbacks' t e [cb] s = runCallback' t e cb s.
Proof.
  simpl. destruct (runCallback' t e cb s) as [s1 c1]. by rewrite app_nil_r.
Qed.

(** The listeners are touched by [destroy] only. *)
Lemma runCallback_listeners (t : Z) (e : Event) (cb : Callback)
    (s : WidgetResize) :
  listeners (runCallback' t e cb s).1 = listeners s.
Proof.
  destruct cb, e; simpl; try done.
  - unfold onMouseDown. destruct (isResizeHandle _); simpl; [|done].
    by destruct (_getResizerByHandle _ _ _).
  - unfold throttledMouseMove. destruct (throttle_call _ _ _ _) as [th [a|]];
      simpl; [|done]. unfold mouseMoveBody. simpl. by destruct (activeResizer s).
  - unfold onMouseUp. by destruct (activeResizer s).
  - unfold throttledRedraw. destruct (throttle_call _ _ _ _) as [th [a|]];
      simpl; [|done]. unfold redrawBody. simpl. by destruct (_focusedResizer s).
  - unfold throttledRedraw. destruct (throttle_call _ _ _ _) as [th [a|]];
      simpl; [|done]. unfold redrawBody. simpl. by destruct (_focusedResizer s).
Qed.

Lemma runCallbacks_listeners (t : Z) (e : Event) (cbs : list Callback)
    (s : WidgetResize) :
  listeners (runCallbacks' t e cbs s).1 = listeners s.
Proof.
  revert s. induction cbs as [|cb cbs IH]; intros s; simpl; [done|].
  pose proof (runCallback_listeners t e cb s) as H1.
  destruct (runCallback' t e cb s) as [s1 c1]. specialize (IH s1).
  destruct (runCallbacks' t e cbs s1) as [s2 c2]. simpl in *. congruence.
Qed.

Lemma step_listeners (ti : Z * Input) (s : WidgetResize) :
  listeners (step' ti s).1 =
  match ti.2 with
  | CallDestroy => stopListening Observer (listeners s)
  | _ => listeners s
  end.
Proof.
  destruct ti as [t [e| | |o|]]; simpl; try done.
  - apply runCallbacks_listeners.
  - unfold mouseMoveTimeout. destruct (throttle_timer _ _ _) as [th [a|]];
      simpl; [|done]. unfold mouseMoveBody. simpl. by destruct (activeResizer s).
  - unfold redrawTimeout. destruct (throttle_timer _ _ _) as [th [a|]];
      simpl; [|done]. unfold redrawBody. simpl. by destruct (_focusedResizer s).
Qed.

Lemma step_wired (ti : Z * Input) (s : WidgetResize) :
  wired s → wired (step' ti s).1.
Proof.
  unfold wired. rewrite step_listeners.
  destruct (ti.2); try done.
  intros [->| ->]; right; [done|]. apply stopListening_idemp.
Qed.

Lemma run_wired (tr : list (Z * Input)) (s : WidgetResize) :
  wired s → wired (run' tr s).1.
Proof.
  revert s. induction tr as [|ti tr IH]; intros s Hs; [done|].
  rewrite run_cons. simpl. apply IH. by apply step_wired.
Qed.

Lemma init_wired : wired init.
Proof. by left. Qed.


(** The callback that [init] subscribes to each event. *)
Lemma listenersOf_init (e : Event) :
  listenersOf (event_source e) (event_name e) (listeners init) =
  [match e with
   | MouseDown _ => OnMouseDown
   | MouseMove _ => OnMouseMove
   | MouseUp _ => OnMouseUp
   | Resize | Update => RedrawFocusedResizer
   | Selection _ => OnSelection
   end].
Proof. by destruct e. Qed.

Lemma listenersOf_destroyed (e : Event) :
  listenersOf (event_source e) (event_name e)
    (stopListening Observer (listeners init)) =
  match e with
  | Update => [RedrawFocusedResizer]
  | Selection _ => [OnSelection]
  | _ => []
  end.
Proof. by destruct e. Qed.

Lemma fire_alive (t : Z) (e : Event) (s : WidgetResize) :
  listeners s = listeners init →
  fire' t e s =
  runCallback' t e
    match e with
    | MouseDown _ => OnMouseDown
    | MouseMove _ => OnMouseMove
    | MouseUp _ => OnMouseUp
    | Resize | Update => RedrawFocusedResizer
    | Selection _ => OnSelection
    end s.
Proof.
  intros H. unfold fire. rewrite H, listenersOf_init. apply runCallbacks_one.
Qed.

Lemma step_dispatch (t : Z) (e : Event) (s : WidgetResize) :
  step' (t, Dispatch e) s = fire' t e s.
Proof. done. Qed.

(** ** Teardown *)

(** C2, as amended.  Whatever happened since [init], after [destroy] the
    subscriptions made through the observer (press, move, release and
    viewport resize) are gone and these events reach no listener, while the
    selection-change and UI-update subscriptions, made with [on] on the
    emitters themselves, are still registered. *)
Theorem destroy_releases_observer_subscriptions (tr : list (Z * Input)) :
  listeners (destroy (run' tr init).1) =
    [ {| listener := DowncastDispatcher; source := DowncastDispatcher;
         event := selection; callback := OnSelection |};
      {| listener := EditorUi; source := EditorUi;
         event := update; callback := RedrawFocusedResizer |} ]
  ∧ Forall (λ x, listener x ≠ Observer) (listeners (destroy (run' tr init).1))
  ∧ ∀ (t : Z) (d : DomEventData),
      step' (t, Dispatch (MouseDown d)) (destroy (run' tr init).1)
        = (destroy (run' tr init).1, [])
      ∧ step' (t, Dispatch (MouseMove d)) (destroy (run' tr init).1)
        = (destroy (run' tr init).1, [])
      ∧ step' (t, Dispatch (MouseUp d)) (destroy (run' tr init).1)
        = (destroy (run' tr init).1, [])
      ∧ step' (t, Dispatch Resize) (destroy (run' tr init).1)
        = (destroy (run' tr init).1, []).
Proof.
  pose proof (run_wired tr init init_wired) as Hw.
  assert (listeners (destroy (run' tr init).1)
          = stopListening Observer (listeners init)) as Hl.
  { unfold destroy; simpl. destruct Hw as [-> | ->]; [done|].
    apply stopListening_idemp. }
  split; [by rewrite Hl|]. split.
  - unfold destroy; simpl. apply stopListening_none.
  - intros t d. rewrite !step_dispatch. unfold fire. rewrite !Hl.
    by rewrite !listenersOf_destroyed.
Qed.

(** ** Press and release *)

Lemma set_activeResizer_id (s : WidgetResize) :
  set_activeResizer (activeResizer s) s = s.
Proof. by destruct s. Qed.

(** C4, as amended.  A press on a recognized handle that no registered
    resizer owns invokes no [begin] and leaves the active-resizer slot
    empty: the slot is assigned the failed lookup, so an empty slot stays
    as it was and a resizer held in it is dropped. *)
Theorem press_on_unowned_handle (t : Z) (d : DomEventData) (s : WidgetResize) :
  listeners s = listeners init →
  isResizeHandle (target d) = true →
  getResizerByHandle' s (target d) = None →
  step' (t, Dispatch (MouseDown d)) s = (set_activeResizer None s, [])
  ∧ (activeResizer s = None → step' (t, Dispatch (MouseDown d)) s = (s, [])).
Proof.
  intros Hl Hh Hr. rewrite step_dispatch, fire_alive by done.
  assert (runCallback' t (MouseDown d) OnMouseDown s
          = (set_activeResizer None s, [])) as ->.
  { simpl. unfold onMouseDown. rewrite Hh. simpl. by rewrite Hr. }
  split; [done|]. intros <-. by rewrite set_activeResizer_id.
Qed.

(** C6.  A release with an empty active-resizer slot changes nothing and
    calls nothing; with a resizer in the slot it calls [commit] on it and
    empties the slot, whatever the event data of the release. *)
Theorem release_commits_then_clears (t : Z) (d : DomEventData)
    (s : WidgetResize) :
  listeners s = listeners init →
  (activeResizer s = None → step' (t, Dispatch (MouseUp d)) s = (s, []))
  ∧ (∀ r, activeResizer s = Some r →
       step' (t, Dispatch (MouseUp d)) s
         = (set_activeResizer None s, [Commit r])
       ∧ activeResizer (step' (t, Dispatch (MouseUp d)) s).1 = None).
Proof.
  intros Hl. rewrite step_dispatch, fire_alive by done. simpl.
  unfold onMouseUp. split.
  - by intros ->.
  - by intros r ->.
Qed.

Ltac unfold_handlers :=
  unfold onMouseDown, throttledMouseMove, mouseMoveTimeout, onMouseUp,
    onSelection, throttledRedraw, redrawTimeout, mouseMoveBody, redrawBody,
    attachTo, destroy in *.

(** With an empty slot, nothing but a press can lead to [updateSize]. *)
Lemma runCallback_idle (t : Z) (e : Event) (cb : Callback) (s : WidgetResize) :
  isPress (Dispatch e) = false →
  activeResizer s = None →
  activeResizer (runCallback' t e cb s).1 = None
  ∧ Forall (λ c, isUpdateSize c = false) (runCallback' t e cb s).2.
Proof.
  intros He Hs.
  destruct cb, e; simpl in *; try done; unfold_handlers;
    repeat case_match; simplify_eq/=; rewrite ?Hs; 
    try (split; [done|by repeat constructor]).
Qed.

Lemma runCallbacks_idle (t : Z) (e : Event) (cbs : list Callback)
    (s : WidgetResize) :
  isPress (Dispatch e) = false →
  activeResizer s = None →
  activeResizer (runCallbacks' t e cbs s).1 = None
  ∧ Forall (λ c, isUpdateSize c = false) (runCallbacks' t e cbs s).2.
Proof.
  intros He. revert s. induction cbs as [|cb cbs IH]; intros s Hs; simpl.
  - by split.
  - destruct (runCallback_idle t e cb s He Hs) as [H1 H2].
    destruct (runCallback' t e cb s) as [s1 c1]; simpl in *.
    destruct (IH s1 H1) as [H3 H4].
    destruct (runCallbacks' t e cbs s1) as [s2 c2]; simpl in *.
    split; [done|]. by apply Forall_app.
Qed.

Lemma step_idle (ti : Z * Input) (s : WidgetResize) :
  isPress ti.2 = false →
  activeResizer s = None →
  activeResizer (step' ti s).1 = None
  ∧ Forall (λ c, isUpdateSize c = false) (step' ti s).2.
Proof.
  destruct ti as [t [e| | |o|]]; intros Hp Hs.
  - rewrite step_dispatch. by apply runCallbacks_idle.
  - simpl. unfold_handlers. repeat case_match; simplify_eq/=; by split.
  - simpl. unfold_handlers.
    repeat case_match; simplify_eq/=; split; try done; by repeat constructor.
  - simpl. split; [done|]. by repeat constructor.
  - simpl. by split.
Qed.

Lemma run_idle (tr : list (Z * Input)) (s : WidgetResize) :
  forallb (λ ti, negb (isPress ti.2)) tr = true →
  activeResizer s = None →
  activeResizer (run' tr s).1 = None
  ∧ Forall (λ c, isUpdateSize c = false) (run' tr s).2.
Proof.
  revert s. induction tr as [|ti tr IH]; intros s Htr Hs.
  - by split.
  - simpl in Htr. apply andb_prop in Htr as [Hti Htr].
    apply negb_true_iff in Hti.
    destruct (step_idle ti s Hti Hs) as [H1 H2].
    destruct (IH _ Htr H1) as [H3 H4].
    rewrite run_cons; simpl. split; [done|]. by apply Forall_app.
Qed.

(** C7.  After a release that called [commit] the active-resizer slot is
    empty, and until the next press nothing calls [updateSize]: neither a
    move event nor the timeout of the move throttle, which may still hold a
    move that arrived before the release. *)
Theorem no_updateSize_after_release (tr0 : list (Z * Input)) (t : Z)
    (d : DomEventData) (r : ResizerId) (tr : list (Z * Input)) :
  Commit r ∈ (step' (t, Dispatch (MouseUp d)) (run' tr0 init).1).2 →
  forallb (λ ti, negb (isPress ti.2)) tr = true →
  activeResizer (step' (t, Dispatch (MouseUp d)) (run' tr0 init).1).1 = None
  ∧ Forall (λ c, isUpdateSize c = false)
      (run' tr (step' (t, Dispatch (MouseUp d)) (run' tr0 init).1).1).2
  ∧ activeResizer
      (run' tr (step' (t, Dispatch (MouseUp d)) (run' tr0 init).1).1).1 = None.
Proof.
  intros Hc Htr.
  assert (activeResizer (step' (t, Dispatch (MouseUp d)) (run' tr0 init).1).1
          = None) as Hnone.
  { revert Hc. rewrite step_dispatch. unfold fire.
    destruct (run_wired tr0 init init_wired) as [-> | ->].
    - rewrite listenersOf_init, runCallbacks_one. simpl. unfold onMouseUp.
      destruct (activeResizer _); simpl; [done|].
      intros H. by apply elem_of_nil in H.
    - rewrite listenersOf_destroyed. simpl.
      intros H. by apply elem_of_nil in H. }
  split; [done|]. by apply and_comm, run_idle.
Qed.

(** ** Focus tracking *)

Lemma walkNode_plain (m : JsMap ResizerId) (w : Walk) (node : ViewNode) :
  resizerBearing node = false → walkNode m w node = w.
Proof.
  unfold resizerBearing, walkNode. intros H. destruct w as [lm fr].
  destruct (isWidget node), (hasClass node resizerClass); try done.
  by rewrite andb_false_r.
Qed.

Lemma walk_plain (m : JsMap ResizerId) (w : Walk) (nodes : list ViewNode) :
  Forall (λ node, resizerBearing node = false) nodes →
  fold_left (walkNode m) nodes w = w.
Proof.
  induction 1 as [|node nodes Hn _ IH]; simpl; [done|].
  by rewrite walkNode_plain.
Qed.

(** The nested loops visit the nodes of all ranges in order. *)
Lemma walkRanges_concat (m : JsMap ResizerId) (ranges : list (list ViewNode)) :
  walkRanges m ranges = fold_left (walkNode m) (concat ranges) (None, None).
Proof.
  unfold walkRanges. generalize (@None ViewNode, @None ResizerId).
  induction ranges as [|range ranges IH]; intros w; simpl; [done|].
  by rewrite fold_left_app, IH.
Qed.

(** Without a focused resizer, nothing but a selection change can lead to
    [redraw]. *)
Lemma runCallback_unfocused (t : Z) (e : Event) (cb : Callback)
    (s : WidgetResize) :
  isSelectionChange (Dispatch e) = false →
  _focusedResizer s = None →
  _focusedResizer (runCallback' t e cb s).1 = None
  ∧ Forall (λ c, isRedraw c = false) (runCallback' t e cb s).2.
Proof.
  intros He Hs.
  destruct cb, e; simpl in *; try done; unfold_handlers;
    repeat case_match; simplify_eq/=; rewrite ?Hs;
    try (split; [done|by repeat constructor]).
Qed.

Lemma runCallbacks_unfocused (t : Z) (e : Event) (cbs : list Callback)
    (s : WidgetResize) :
  isSelectionChange (Dispatch e) = false →
  _focusedResizer s = None →
  _focusedResizer (runCallbacks' t e cbs s).1 = None
  ∧ Forall (λ c, isRedraw c = false) (runCallbacks' t e cbs s).2.
Proof.
  intros He. revert s. induction cbs as [|cb cbs IH]; intros s Hs; simpl.
  - by split.
  - destruct (runCallback_unfocused t e cb s He Hs) as [H1 H2].
    destruct (runCallback' t e cb s) as [s1 c1]; simpl in *.
    destruct (IH s1 H1) as [H3 H4].
    destruct (runCallbacks' t e cbs s1) as [s2 c2]; simpl in *.
    split; [done|]. by apply Forall_app.
Qed.

Lemma step_unfocused (ti : Z * Input) (s : WidgetResize) :
  isSelectionChange ti.2 = false →
  _focusedResizer s = None →
  _focusedResizer (step' ti s).1 = None
  ∧ Forall (λ c, isRedraw c = false) (step' ti s).2.
Proof.
  destruct ti as [t [e| | |o|]]; intros Hp Hs.
  - rewrite step_dispatch. by apply runCallbacks_unfocused.
  - simpl. unfold_handlers.
    repeat case_match; simplify_eq/=; split; try done; by repeat constructor.
  - simpl. unfold_handlers. repeat case_match; simplify_eq/=; by split.
  - simpl. split; [done|]. by repeat constructor.
  - simpl. by split.
Qed.

Lemma run_unfocused (tr : list (Z * Input)) (s : WidgetResize) :
  forallb (λ ti, negb (isSelectionChange ti.2)) tr = true →
  _focusedResizer s = None →
  _focusedResizer (run' tr s).1 = None
  ∧ Forall (λ c, isRedraw c = false) (run' tr s).2.
Proof.
  revert s. induction tr as [|ti tr IH]; intros s Htr Hs.
  - by split.
  - simpl in Htr. apply andb_prop in Htr as [Hti Htr].
    apply negb_true_iff in Hti.
    destruct (step_unfocused ti s Hti Hs) as [H1 H2].
    destruct (IH _ Htr H1) as [H3 H4].
    rewrite run_cons; simpl. split; [done|]. by apply Forall_app.
Qed.

(** C8.  A selection change whose walk meets no resizer-bearing widget
    sets the focused resizer to null and redraws nothing; from then on,
    until the next selection change, the reference stays null and no
    UI update, viewport resize or redraw timeout calls [redraw]. *)
Theorem no_redraw_without_focused_resizer (tr0 : list (Z * Input)) (t : Z)
    (ranges : list (list ViewNode)) (tr : list (Z * Input)) :
  Forall (λ node, resizerBearing node = false) (concat ranges) →
  forallb (λ ti, negb (isSelectionChange ti.2)) tr = true →
  _focusedResizer
    (step' (t, Dispatch (Selection ranges)) (run' tr0 init).1).1 = None
  ∧ (step' (t, Dispatch (Selection ranges)) (run' tr0 init).1).2 = []
  ∧ _focusedResizer
      (run' tr (step' (t, Dispatch (Selection ranges)) (run' tr0 init).1).1).1
    = None
  ∧ Forall (λ c, isRedraw c = false)
      (run' tr (step' (t, Dispatch (Selection ranges)) (run' tr0 init).1).1).2.
Proof.
  intros Hr Htr.
  assert (step' (t, Dispatch (Selection ranges)) (run' tr0 init).1
          = (set_focusedResizer None (run' tr0 init).1, [])) as ->.
  { rewrite step_dispatch. unfold fire.
    assert (onSelection ranges (run' tr0 init).1
            = (set_focusedResizer None (run' tr0 init).1, [])) as Hsel.
    { unfold onSelection. rewrite walkRanges_concat, walk_plain by done.
      done. }
    destruct (run_wired tr0 init init_wired) as [-> | ->].
    - rewrite listenersOf_init, runCallbacks_one. simpl. apply Hsel.
    - rewrite listenersOf_destroyed, runCallbacks_one. simpl. apply Hsel. }
  simpl. split; [done|]. split; [done|]. by apply run_unfocused.
Qed.

Lemma walkNode_skips (m : JsMap ResizerId) (u : ViewNode)
    (fr : option ResizerId) (n : ViewNode) :
  isChild n (Some u) = true → walkNode m (Some u, fr) n = (Some u, fr).
Proof. unfold walkNode. intros ->. simpl. by rewrite andb_false_r. Qed.

(** While [lastMarked] is [u], nodes below [u] and nodes that are not
    resizer-bearing widgets leave the walk as it is. *)
Lemma walk_below (m : JsMap ResizerId) (u : ViewNode)
    (fr : option ResizerId) (nodes : list ViewNode) :
  Forall (λ n, isChild n (Some u) = true ∨ resizerBearing n = false) nodes →
  fold_left (walkNode m) nodes (Some u, fr) = (Some u, fr).
Proof.
  induction 1 as [|n nodes Hn _ IH]; cbn [fold_left]; [done|].
  destruct Hn as [Hn|Hn].
  - by rewrite walkNode_skips.
  - by rewrite walkNode_plain.
Qed.

Lemma walkNode_marks (m : JsMap ResizerId) (w : Walk) (u : ViewNode) :
  resizerBearing u = true →
  isChild u w.1 = false →
  walkNode m w u =
  (Some u, match map_get (identity u) m with Some r => Some r | None => w.2 end).
Proof.
  unfold resizerBearing. intros Hb Hc. destruct w as [lm fr]; simpl in *.
  apply andb_prop in Hb as [-> ->]. by rewrite Hc.
Qed.

(** C10, as amended.  A resizer-bearing widget [u] that is marked becomes
    [lastMarked] also when the registry has no resizer for it, and the
    candidate chosen before is kept.  When every node walked after [u] is
    below [u] or is not a resizer-bearing widget, these nodes are skipped
    and the walk ends with the candidate it had before [u]. *)
Theorem unregistered_widget_shadows_descendants (s : WidgetResize)
    (ranges : list (list ViewNode)) (pre : list ViewNode) (u : ViewNode)
    (below : list ViewNode) :
  concat ranges = pre ++ u :: below →
  resizerBearing u = true →
  isChild u (fold_left (walkNode (resizers s)) pre (None, None)).1 = false →
  map_get (identity u) (resizers s) = None →
  Forall (λ n, isChild n (Some u) = true ∨ resizerBearing n = false) below →
  fold_left (walkNode (resizers s)) (pre ++ [u]) (None, None)
    = (Some u, (fold_left (walkNode (resizers s)) pre (None, None)).2)
  ∧ walkRanges (resizers s) ranges
    = (Some u, (fold_left (walkNode (resizers s)) pre (None, None)).2)
  ∧ _focusedResizer (onSelection ranges s).1
    = (fold_left (walkNode (resizers s)) pre (None, None)).2.
Proof.
  intros Hcat Hb Hc Hm Hbelow.
  assert (fold_left (walkNode (resizers s)) (pre ++ [u]) (None, None)
          = (Some u, (fold_left (walkNode (resizers s)) pre (None, None)).2))
    as Hu.
  { rewrite fold_left_app. simpl. by rewrite walkNode_marks, Hm. }
  assert (walkRanges (resizers s) ranges
          = (Some u, (fold_left (walkNode (resizers s)) pre (None, None)).2))
    as Hw.
  { rewrite walkRanges_concat, Hcat, (cons_middle u), app_assoc.
    rewrite fold_left_app, Hu. by apply walk_below. }
  split; [done|]. split; [done|].
  unfold onSelection. simpl. by rewrite Hw.
Qed.

Lemma walk_within (m : JsMap ResizerId) (w1 : ViewNode) (r1 : ResizerId)
    (nodes : list ViewNode) :
  map_get (identity w1) m = Some r1 →
  Forall (λ n, n = w1 ∨ isChild n (Some w1) = true
               ∨ resizerBearing n = false) nodes →
  fold_left (walkNode m) nodes (Some w1, Some r1) = (Some w1, Some r1).
Proof.
  intros Hm. induction 1 as [|n nodes Hn _ IH]; cbn [fold_left]; [done|].
  destruct Hn as [->|[Hn|Hn]].
  - replace (walkNode m (Some w1, Some r1) w1) with (Some w1, Some r1);
      [done|].
    unfold walkNode.
    destruct (isWidget w1 && negb (isChild w1 (Some w1))
              && hasClass w1 resizerClass); [by rewrite Hm|done].
  - by rewrite walkNode_skips.
  - by rewrite walkNode_plain.
Qed.

(** C5, as amended.  When the widget [w1] is marked (it is not below the
    node marked before it) and every node walked after it is [w1] again, a
    node below [w1] such as the nested widget [w2], or not a resizer-bearing
    widget, the focused resizer is the one of [w1], not the one of [w2],
    and it is redrawn. *)
Theorem outer_widget_keeps_focus (s : WidgetResize)
    (ranges : list (list ViewNode)) (pre : list ViewNode) (w1 w2 : ViewNode)
    (rest : list ViewNode) (r1 r2 : ResizerId) :
  concat ranges = pre ++ w1 :: rest →
  resizerBearing w1 = true →
  isChild w1 (fold_left (walkNode (resizers s)) pre (None, None)).1 = false →
  w2 ∈ rest →
  resizerBearing w2 = true →
  isChild w2 (Some w1) = true →
  map_get (identity w1) (resizers s) = Some r1 →
  map_get (identity w2) (resizers s) = Some r2 →
  r1 ≠ r2 →
  Forall (λ n, n = w1 ∨ isChild n (Some w1) = true
               ∨ resizerBearing n = false) rest →
  onSelection ranges s = (set_focusedResizer (Some r1) s, [Redraw r1])
  ∧ _focusedResizer (onSelection ranges s).1 ≠ Some r2.
Proof.
  intros Hcat Hb Hc _ _ _ Hm1 _ Hne Hrest.
  assert (walkRanges (resizers s) ranges = (Some w1, Some r1)) as Hw.
  { rewrite walkRanges_concat, Hcat, fold_left_app. simpl.
    rewrite walkNode_marks, Hm1 by done. by apply walk_within. }
  unfold onSelection. rewrite Hw. simpl. split; [done|]. congruence.
Qed.

(** ** At most one drag at a time *)

Lemma isActive_app (cs cs' : list Call) (r : ResizerId) :
  isActive (cs ++ cs') r = fold_left (lifecycle r) cs' (isActive cs r).
Proof. unfold isActive. apply fold_left_app. Qed.

Lemma lifecycle_neutral (r : ResizerId) (cs : list Call) (b : bool) :
  Forall (λ c, isLifecycle c = false) cs →
  fold_left (lifecycle r) cs b = b.
Proof.
  intros H. revert b. induction H as [|c cs Hc _ IH]; intros b; simpl; [done|].
  rewrite IH. by destruct c.
Qed.

Lemma slotHoldsActive_neutral (s s' : WidgetResize) (cs cs' : list Call) :
  activeResizer s' = activeResizer s
  ∧ Forall (λ c, isLifecycle c = false) cs' →
  slotHoldsActive s cs → slotHoldsActive s' (cs ++ cs').
Proof.
  intros [Ha Hn] Hinv r. rewrite isActive_app, lifecycle_neutral, Ha by done.
  apply Hinv.
Qed.

(** Only the press and release listeners touch the slot or a resizer's
    lifecycle. *)
Lemma runCallback_neutral (t : Z) (e : Event) (cb : Callback)
    (s : WidgetResize) :
  match e with MouseDown _ | MouseUp _ => False | _ => True end →
  activeResizer (runCallback' t e cb s).1 = activeResizer s
  ∧ Forall (λ c, isLifecycle c = false) (runCallback' t e cb s).2.
Proof.
  intros He.
  destruct cb, e; simpl in *; try done; unfold_handlers;
    repeat case_match; simplify_eq/=;
    try (split; [done|by repeat constructor]).
Qed.

Lemma timers_and_calls_neutral (t : Z) (i : Input) (s : WidgetResize) :
  match i with Dispatch _ => False | _ => True end →
  activeResizer (step' (t, i) s).1 = activeResizer s
  ∧ Forall (λ c, isLifecycle c = false) (step' (t, i) s).2.
Proof.
  intros Hi.
  destruct i; simpl in *; try done; unfold_handlers;
    repeat case_match; simplify_eq/=;
    try (split; [done|by repeat constructor]).
Qed.

Lemma press_slotHoldsActive (d : DomEventData) (s : WidgetResize)
    (cs : list Call) :
  negb (isResizeHandle (target d)) || bool_decide (activeResizer s = None)
    = true →
  slotHoldsActive s cs →
  slotHoldsActive (onMouseDown' d s).1 (cs ++ (onMouseDown' d s).2).
Proof.
  intros Hok Hinv. unfold onMouseDown.
  destruct (isResizeHandle (target d)); simpl in *.
  - apply bool_decide_eq_true in Hok.
    assert (∀ r, isActive cs r = false) as Hnone.
    { intros r. destruct (isActive cs r) eqn:Hr; [|done].
      apply Hinv in Hr. congruence. }
    destruct (_getResizerByHandle containsHandle s (target d)) as [r|];
      simpl; intros r0; rewrite isActive_app; simpl.
    + case_decide; [by subst|]. by rewrite Hnone.
    + by rewrite Hnone.
  - by rewrite app_nil_r.
Qed.

Lemma release_slotHoldsActive (s : WidgetResize) (cs : list Call) :
  slotHoldsActive s cs →
  slotHoldsActive (onMouseUp s).1 (cs ++ (onMouseUp s).2).
Proof.
  intros Hinv. unfold onMouseUp.
  destruct (activeResizer s) as [r|] eqn:Hs; simpl.
  - intros r0. rewrite isActive_app. simpl.
    case_decide; [done|]. intros Hr0. apply Hinv in Hr0. congruence.
  - by rewrite app_nil_r.
Qed.

Lemma step_slotHoldsActive (ti : Z * Input) (s : WidgetResize)
    (cs : list Call) :
  wired s →
  pressesMeetEmptySlot isResizeHandle containsHandle [ti] s = true →
  slotHoldsActive s cs →
  slotHoldsActive (step' ti s).1 (cs ++ (step' ti s).2).
Proof.
  intros Hw Hok Hinv. destruct ti as [t i].
  destruct i as [e| | |o|];
    try (apply (slotHoldsActive_neutral s); [|done];
         apply timers_and_calls_neutral; exact I).
  rewrite step_dispatch. unfold fire.
  destruct Hw as [-> | ->].
  - rewrite listenersOf_init, runCallbacks_one.
    destruct e as [d|d|d| | |ranges];
      try (apply (slotHoldsActive_neutral s); [|done];
           apply runCallback_neutral; exact I).
    + simpl in Hok. rewrite andb_true_r in Hok.
      by apply press_slotHoldsActive.
    + by apply release_slotHoldsActive.
  - rewrite listenersOf_destroyed.
    destruct e as [d|d|d| | |ranges]; try (by rewrite app_nil_r);
      rewrite runCallbacks_one;
      (apply (slotHoldsActive_neutral s); [|done]; apply runCallback_neutral; exact I).
Qed.

Lemma pressesMeetEmptySlot_app (tr1 tr2 : list (Z * Input))
    (s : WidgetResize) :
  pressesMeetEmptySlot isResizeHandle containsHandle (tr1 ++ tr2) s =
  pressesMeetEmptySlot isResizeHandle containsHandle tr1 s
  && pressesMeetEmptySlot isResizeHandle containsHandle tr2 (run' tr1 s).1.
Proof.
  revert s. induction tr1 as [|ti tr1 IH]; intros s; [done|].
  rewrite run_cons. cbn [app pressesMeetEmptySlot fst].
  by rewrite IH, andb_assoc.
Qed.

Lemma run_slotHoldsActive (tr : list (Z * Input)) (s : WidgetResize)
    (cs : list Call) :
  wired s →
  pressesMeetEmptySlot isResizeHandle containsHandle tr s = true →
  slotHoldsActive s cs →
  slotHoldsActive (run' tr s).1 (cs ++ (run' tr s).2).
Proof.
  revert s cs. induction tr as [|ti tr IH]; intros s cs Hw Hok Hinv.
  - simpl. by rewrite app_nil_r.
  - rewrite run_cons. simpl. rewrite app_assoc.
    change (ti :: tr) with ([ti] ++ tr) in Hok.
    rewrite pressesMeetEmptySlot_app in Hok.
    apply andb_prop in Hok as [Hti Htr].
    apply IH.
    + by apply step_wired.
    + revert Htr. by rewrite run_cons.
    + by apply step_slotHoldsActive.
Qed.

(** C3, as amended.  The slot holds at most one resizer and a release
    empties it.  In every history in which each press on a recognized
    handle meets an empty slot (every drag is closed by its release before
    the next one starts), at every instant a resizer that is in its active
    state is the one in the slot, so at most one resizer is active. *)
Theorem at_most_one_active_resizer (pre post : list (Z * Input))
    (r1 r2 : ResizerId) :
  pressesMeetEmptySlot isResizeHandle containsHandle (pre ++ post) init
    = true →
  isActive (run' pre init).2 r1 = true →
  isActive (run' pre init).2 r2 = true →
  r1 = r2 ∧ activeResizer (run' pre init).1 = Some r1.
Proof.
  intros Hok H1 H2. rewrite pressesMeetEmptySlot_app in Hok.
  apply andb_prop in Hok as [Hpre _].
  pose proof (run_slotHoldsActive pre init [] init_wired Hpre) as Hinv.
  simpl in Hinv.
  assert (slotHoldsActive init []) as H0 by (intros r; done).
  specialize (Hinv H0).
  pose proof (Hinv r1 H1). pose proof (Hinv r2 H2). split; congruence.
Qed.

(** ** The move throttle *)

Lemma set_onMouseMove_id (s : WidgetResize) :
  set_onMouseMove (onMouseMove s) s = s.
Proof. by destruct s. Qed.

(** A call inside an open window is coalesced: it only replaces the
    pending arguments. *)
Lemma throttle_call_coalesced {A} (wait t w lc due : Z) (a : A)
    (th : Throttled A) :
  timerId th = Some due →
  lastInvokeTime th = w →
  lastCallTime th = Some lc →
  (w ≤ lc ≤ t)%Z → (t < w + wait)%Z →
  throttle_call wait t a th =
  ({| lastArgs := Some a; lastCallTime := Some t; lastInvokeTime := w;
      timerId := Some due |}, None).
Proof.
  intros Htm Hw Hlc Hle Hlt. unfold throttle_call, shouldInvoke.
  rewrite Hlc, Hw, Htm. simpl.
  assert ((wait <=? t - lc)%Z = false) as -> by (apply Z.leb_gt; lia).
  assert ((t - lc <? 0)%Z = false) as -> by (apply Z.ltb_ge; lia).
  assert ((wait <=? t - w)%Z = false) as -> by (apply Z.leb_gt; lia).
  done.
Qed.

Lemma moves_coalesced (moves : list (Z * DomEventData)) (s : WidgetResize)
    (w lc due : Z) :
  listeners s = listeners init →
  timerId (onMouseMove s) = Some due →
  lastInvokeTime (onMouseMove s) = w →
  lastCallTime (onMouseMove s) = Some lc →
  (w ≤ lc)%Z →
  withinWindow lc (w + 16) moves = true →
  run' (moveEvents moves) s =
  (set_onMouseMove
     match last moves with
     | Some m => pendingMove w m.1 due m.2
     | None => onMouseMove s
     end s, []).
Proof.
  revert s lc. induction moves as [|[t d] rest IH];
    intros s lc Hl Htm Hw Hlc Hle Hwin.
  - simpl. by rewrite set_onMouseMove_id.
  - simpl in Hwin. apply andb_prop in Hwin as [Ht Hrest].
    apply andb_prop in Ht as [Ht1 Ht2].
    apply Z.leb_le in Ht1. apply Z.ltb_lt in Ht2.
    change (moveEvents ((t, d) :: rest))
      with ((t, Dispatch (MouseMove d)) :: moveEvents rest).
    rewrite run_cons, step_dispatch, fire_alive by done. simpl runCallback.
    unfold throttledMouseMove.
    rewrite (throttle_call_coalesced 16 t w lc due) by (done || lia).
    cbn [fst snd].
    rewrite (IH _ t) by (done || simpl; lia). cbn [fst snd app].
    rewrite last_cons. by destruct (last rest).
Qed.

(** The timeout of an open window runs the pending move. *)
Lemma timeout_runs_pending (s : WidgetResize) (r : ResizerId)
    (w t due T : Z) (d : DomEventData) :
  activeResizer s = Some r →
  onMouseMove s = pendingMove w t due d →
  (due ≤ T)%Z → (w + 16 ≤ T)%Z →
  (step' (T, MouseMoveTimer) s).2 = [UpdateSize r d].
Proof.
  intros Ha Hth Hdue Hw. simpl. unfold mouseMoveTimeout, throttle_timer.
  rewrite Hth. simpl.
  assert ((due <=? T)%Z = true) as -> by (apply Z.leb_le; lia).
  unfold timerExpired, shouldInvoke. simpl.
  assert ((16 <=? T - w)%Z = true) as -> by (apply Z.leb_le; lia).
  rewrite !orb_true_r. simpl. unfold mouseMoveBody. simpl. by rewrite Ha.
Qed.

(** A move that finds the throttle ready to invoke runs at once and opens
    a window, whether or not a timeout is still pending. *)
Lemma first_move_invokes (s : WidgetResize) (r : ResizerId) (t0 : Z)
    (d0 : DomEventData) :
  listeners s = listeners init →
  activeResizer s = Some r →
  shouldInvoke 16 t0 (onMouseMove s) = true →
  step' (t0, Dispatch (MouseMove d0)) s =
  (set_onMouseMove
     {| lastArgs := None; lastCallTime := Some t0; lastInvokeTime := t0;
        timerId := Some (t0 + 16)%Z |} s,
   [UpdateSize r d0]).
Proof.
  intros Hl Ha Hready. rewrite step_dispatch, fire_alive by done.
  simpl. unfold throttledMouseMove, throttle_call.
  rewrite Hready. simpl.
  destruct (timerId (onMouseMove s)); simpl;
    unfold mouseMoveBody; simpl; by rewrite Ha.
Qed.

(** A move that finds the throttle not ready to invoke is held back; the
    timeout that will deliver it is the pending one, or a new one 16 ms
    later when none is pending. *)
Lemma first_move_held (s : WidgetResize) (t1 : Z) (d1 : DomEventData) :
  listeners s = listeners init →
  shouldInvoke 16 t1 (onMouseMove s) = false →
  step' (t1, Dispatch (MouseMove d1)) s =
  (set_onMouseMove
     (pendingMove (lastInvokeTime (onMouseMove s)) t1
        (default (t1 + 16)%Z (timerId (onMouseMove s))) d1) s,
   []).
Proof.
  intros Hl Hheld. rewrite step_dispatch, fire_alive by done.
  simpl. unfold throttledMouseMove, throttle_call.
  rewrite Hheld. simpl. by destruct (timerId (onMouseMove s)).
Qed.

(** C1, as amended.  Take [N ≥ 1] move events, in the order of their
    times, while a resizer is active.  When the first of them finds the
    throttle ready to invoke (it is the first call, or 16 ms or more have
    passed since the last call or since the last invocation) and the
    others come within 16 ms of it, [updateSize] runs at once with the data
    of the first and, if [N ≥ 2], once more when the timeout fires, with
    the data of the last.  When the first finds the throttle not ready to
    invoke and all of them come within the 16 ms that follow the last
    invocation, they are held back and [updateSize] runs once, when the
    timeout fires, with the data of the last.  The timeout is the pending
    one, or one set 16 ms after the first move when none is pending. *)
Theorem moves_in_one_throttle_window :
  (∀ (s : WidgetResize) (r : ResizerId) (t0 : Z) (d0 : DomEventData)
     (rest : list (Z * DomEventData)) (T : Z),
      listeners s = listeners init →
      activeResizer s = Some r →
      shouldInvoke 16 t0 (onMouseMove s) = true →
      withinWindow t0 (t0 + 16) rest = true →
      (t0 + 16 ≤ T)%Z →
      (run' (moveEvents ((t0, d0) :: rest) ++ [(T, MouseMoveTimer)]) s).2
      = UpdateSize r d0 ::
        match last rest with
        | Some m => [UpdateSize r m.2]
        | None => []
        end)
  ∧ (∀ (s : WidgetResize) (r : ResizerId) (t1 : Z) (d1 : DomEventData)
       (rest : list (Z * DomEventData)) (T : Z),
      listeners s = listeners init →
      activeResizer s = Some r →
      shouldInvoke 16 t1 (onMouseMove s) = false →
      (lastInvokeTime (onMouseMove s) ≤ t1)%Z →
      withinWindow t1 (lastInvokeTime (onMouseMove s) + 16) rest = true →
      (default (t1 + 16)%Z (timerId (onMouseMove s)) ≤ T)%Z →
      (lastInvokeTime (onMouseMove s) + 16 ≤ T)%Z →
      (run' (moveEvents ((t1, d1) :: rest) ++ [(T, MouseMoveTimer)]) s).2
      = [UpdateSize r
           match last rest with
           | Some m => m.2
           | None => d1
           end]).
Proof.
  split.
  - intros s r t0 d0 rest T Hl Ha Hready Hwin HT.
    change (moveEvents ((t0, d0) :: rest) ++ [(T, MouseMoveTimer)])
      with ((t0, Dispatch (MouseMove d0))
              :: (moveEvents rest ++ [(T, MouseMoveTimer)])).
    rewrite run_cons, (first_move_invokes s r) by done. cbn [fst snd].
    f_equal. rewrite run_app.
    rewrite (moves_coalesced rest _ t0 t0 (t0 + 16)) by (done || simpl; lia).
    cbn [fst snd app]. rewrite run_cons. cbn [run fst snd].
    rewrite app_nil_r.
    destruct (last rest) as [m|].
    + by apply (timeout_runs_pending _ r t0 m.1 (t0 + 16)%Z T); [| |lia..].
    + simpl. unfold mouseMoveTimeout, throttle_timer. simpl.
      assert ((t0 + 16 <=? T)%Z = true) as -> by (apply Z.leb_le; lia).
      unfold timerExpired, shouldInvoke. simpl.
      assert ((16 <=? T - t0)%Z = true) as -> by (apply Z.leb_le; lia).
      done.
  - intros s r t1 d1 rest T Hl Ha Hheld Hw Hwin Hdue HT.
    change (moveEvents ((t1, d1) :: rest) ++ [(T, MouseMoveTimer)])
      with ((t1, Dispatch (MouseMove d1))
              :: (moveEvents rest ++ [(T, MouseMoveTimer)])).
    rewrite run_cons, (first_move_held s) by done. cbn [fst snd app].
    rewrite run_app.
    rewrite (moves_coalesced rest _ (lastInvokeTime (onMouseMove s)) t1
               (default (t1 + 16)%Z (timerId (onMouseMove s))))
      by done.
    cbn [fst snd app]. rewrite run_cons. cbn [run fst snd].
    rewrite app_nil_r.
    destruct (last rest) as [m|].
    + by apply (timeout_runs_pending _ r (lastInvokeTime (onMouseMove s))
                  m.1 (default (t1 + 16)%Z (timerId (onMouseMove s))) T).
    + by apply (timeout_runs_pending _ r (lastInvokeTime (onMouseMove s))
                  t1 (default (t1 + 16)%Z (timerId (onMouseMove s))) T).
Qed.

(** ** The registry *)

Lemma attachTo_eq (o : ResizerOptions) (s : WidgetResize) :
  attachTo o s =
  (length (heap s),
   set_resizers (map_set (viewElement o) (length (heap s)) (resizers s))
     (set_heap (heap s ++ [{| options := o; attached := true |}]) s),
   [Attach (length (heap s))]).
Proof.
  assert (∀ h : list Resizer,
            alter (λ x, {| options := options x; attached := true |})
              (length h) (h ++ [{| options := o; attached := false |}])
            = h ++ [{| options := o; attached := true |}]) as Halter.
  { intros h. induction h as [|x h IH]; simpl; [done|]. f_equal. apply IH. }
  unfold attachTo. cbn [heap set_heap]. by rewrite Halter.
Qed.

(** C9.  [attachTo] creates a resizer from the options, attaches it, puts
    it in the registry under [options.viewElement] and returns it; other
    keys are left alone.  A second call with the same view element creates
    another resizer and replaces the entry in place: the registry does not
    grow, and the first resizer is still attached and receives no call. *)
Theorem attachTo_registers_and_overwrites (o1 o2 : ResizerOptions)
    (s : WidgetResize) :
  (heap s !! (attachTo o1 s).1.1 = None
   ∧ heap (attachTo o1 s).1.2 !! (attachTo o1 s).1.1
     = Some {| options := o1; attached := true |}
   ∧ (attachTo o1 s).2 = [Attach (attachTo o1 s).1.1]
   ∧ map_get (viewElement o1) (resizers (attachTo o1 s).1.2)
     = Some (attachTo o1 s).1.1
   ∧ ∀ k, k ≠ viewElement o1 →
       map_get k (resizers (attachTo o1 s).1.2) = map_get k (resizers s))
  ∧ (viewElement o2 = viewElement o1 →
     (attachTo o2 (attachTo o1 s).1.2).1.1 ≠ (attachTo o1 s).1.1
     ∧ map_get (viewElement o1)
         (resizers (attachTo o2 (attachTo o1 s).1.2).1.2)
       = Some (attachTo o2 (attachTo o1 s).1.2).1.1
     ∧ length (resizers (attachTo o2 (attachTo o1 s).1.2).1.2)
       = length (resizers (attachTo o1 s).1.2)
     ∧ heap (attachTo o2 (attachTo o1 s).1.2).1.2 !! (attachTo o1 s).1.1
       = Some {| options := o1; attached := true |}
     ∧ (attachTo o2 (attachTo o1 s).1.2).2
       = [Attach (attachTo o2 (attachTo o1 s).1.2).1.1]).
Proof.
  rewrite (attachTo_eq o2), !(attachTo_eq o1). simpl. split.
  - split; [by apply lookup_ge_None_2|].
    split; [by apply list_lookup_middle|].
    split; [done|]. split; [apply map_get_set_eq|].
    intros k Hk. by apply map_get_set_ne.
  - intros Hkey. rewrite Hkey, length_app. simpl.
    split; [lia|]. split; [apply map_get_set_eq|].
    split.
    + apply map_set_length_present. rewrite map_get_set_eq. by eexists.
    + split; [|done]. rewrite lookup_app_l by (rewrite length_app; simpl; lia).
      by apply list_lookup_middle.
Qed.
(** ** Handle lookup and press *)

Lemma firstContaining_app (h : DomElement) (vs ws : list ResizerId) :
  firstContaining containsHandle h (vs ++ ws) =
  match firstContaining containsHandle h vs with
  | Some r => Some r
  | None => firstContaining containsHandle h ws
  end.
Proof.
  induction vs as [|v vs IH]; simpl; [done|].
  by destruct (containsHandle v h).
Qed.

Lemma firstContaining_none (h : DomElement) (vs : list ResizerId) :
  firstContaining containsHandle h vs = None
  ↔ Forall (λ x, containsHandle x h = false) vs.
Proof.
  induction vs as [|v vs IH]; simpl.
  - split; [constructor|done].
  - destruct (containsHandle v h) eqn:Hv.
    + split; [done|]. intros H. inversion H; congruence.
    + rewrite IH. split.
      * by constructor.
      * intros H. by inversion H.
Qed.

(** [_getResizerByHandle] returns the first registered resizer, in the
    order of the map, that contains the handle, and nothing exactly when no
    registered resizer contains it. *)
Theorem getResizerByHandle_first (s : WidgetResize) (h : DomElement) :
  (∀ r, getResizerByHandle' s h = Some r
        ↔ ∃ pre post,
            map_values (resizers s) = pre ++ r :: post
            ∧ containsHandle r h = true
            ∧ Forall (λ x, containsHandle x h = false) pre)
  ∧ (getResizerByHandle' s h = None
     ↔ Forall (λ x, containsHandle x h = false) (map_values (resizers s))).
Proof.
  unfold _getResizerByHandle. split; [|apply firstContaining_none].
  intros r. generalize (map_values (resizers s)). intros vs. split.
  - induction vs as [|v vs IH]; simpl; [done|].
    destruct (containsHandle v h) eqn:Hv.
    + intros [= ->]. exists [], vs. by repeat split.
    + intros H. destruct (IH H) as (pre & post & -> & Hr & Hpre).
      exists (v :: pre), post. repeat split; [done|]. by constructor.
  - intros (pre & post & -> & Hr & Hpre).
    rewrite firstContaining_app.
    apply firstContaining_none in Hpre. rewrite Hpre. simpl. by rewrite Hr.
Qed.

(** A press whose target is not a resize handle is ignored: nothing is
    called and the state, a drag in progress included, is left as it is. *)
Theorem press_off_handle_ignored (t : Z) (d : DomEventData)
    (s : WidgetResize) :
  listeners s = listeners init →
  isResizeHandle (target d) = false →
  step' (t, Dispatch (MouseDown d)) s = (s, []).
Proof.
  intros Hl Hh. rewrite step_dispatch, fire_alive by done. simpl.
  unfold onMouseDown. by rewrite Hh.
Qed.

(** A press on a handle that a registered resizer owns puts the first such
    resizer in the slot, whatever the slot held, and calls [begin] on it
    with the handle, and on nothing else. *)
Theorem press_on_owned_handle_begins (t : Z) (d : DomEventData)
    (s : WidgetResize) (r : ResizerId) :
  listeners s = listeners init →
  isResizeHandle (target d) = true →
  getResizerByHandle' s (target d) = Some r →
  step' (t, Dispatch (MouseDown d)) s
    = (set_activeResizer (Some r) s, [Begin r (target d)])
  ∧ containsHandle r (target d) = true.
Proof.
  intros Hl Hh Hr. rewrite step_dispatch, fire_alive by done. simpl.
  unfold onMouseDown. rewrite Hh. simpl. rewrite Hr. split; [done|].
  apply (getResizerByHandle_first s (target d)) in Hr
    as (pre & post & _ & Hc & _). done.
Qed.

(** A click on a handle, press and release with no move in between, calls
    [begin] and then [commit] on the owner of the handle and leaves the
    coordinator exactly as it was. *)
Theorem click_on_handle_round_trip (t1 t2 : Z) (d d' : DomEventData)
    (s : WidgetResize) (r : ResizerId) :
  listeners s = listeners init →
  activeResizer s = None →
  isResizeHandle (target d) = true →
  getResizerByHandle' s (target d) = Some r →
  run' [(t1, Dispatch (MouseDown d)); (t2, Dispatch (MouseUp d'))] s
  = (s, [Begin r (target d); Commit r]).
Proof.
  intros Hl Ha Hh Hr. rewrite run_cons.
  destruct (press_on_owned_handle_begins t1 d s r Hl Hh Hr) as [-> _].
  cbn [fst snd]. rewrite run_cons. cbn [run fst snd].
  rewrite step_dispatch, fire_alive by done. simpl.
  f_equal. destruct s; simpl in *. by subst.
Qed.

(** ** The registry under [attachTo] *)

Lemma map_get_None_keys {V} (k : ViewElement) (m : JsMap V) :
  map_get k m = None ↔ k ∉ m.*1.
Proof.
  induction m as [|[k' v'] m IH]; simpl.
  - split; [intros _; apply not_elem_of_nil|done].
  - rewrite not_elem_of_cons. destruct (decide (k' = k)) as [->|Hne].
    + split; [done|]. by intros [? _].
    + rewrite IH. split; [by intros ?; split|by intros [_ ?]].
Qed.

Lemma map_set_absent {V} (k : ViewElement) (v : V) (m : JsMap V) :
  map_get k m = None → map_set k v m = m ++ [(k, v)].
Proof.
  induction m as [|[k' v'] m IH]; simpl; [done|].
  destruct (decide (k' = k)); [done|]. intros H. by rewrite IH.
Qed.

Lemma map_set_keys_present {V} (k : ViewElement) (v : V) (m : JsMap V) :
  is_Some (map_get k m) → (map_set k v m).*1 = m.*1.
Proof.
  induction m as [|[k' v'] m IH]; simpl.
  - intros [? ?]; discriminate.
  - destruct (decide (k' = k)) as [->|Hne]; simpl; [done|].
    intros H. f_equal. by apply IH.
Qed.

(** [attachTo] keeps the order of the registry: a new view element goes to
    the end, and a view element that is registered already keeps its place
    when its resizer is replaced. *)
Theorem attachTo_keeps_order (o : ResizerOptions) (s : WidgetResize) :
  (resizers (attachTo o s).1.2).*1 =
  match map_get (viewElement o) (resizers s) with
  | Some _ => (resizers s).*1
  | None => (resizers s).*1 ++ [viewElement o]
  end.
Proof.
  rewrite attachTo_eq. simpl.
  destruct (map_get (viewElement o) (resizers s)) eqn:Hk.
  - apply map_set_keys_present. by rewrite Hk.
  - rewrite map_set_absent by done. by rewrite fmap_app.
Qed.

(** Attaching a resizer to a view element that is not registered yet takes
    no handle away: a handle that resolved to a resizer still resolves to
    it. *)
Theorem attachTo_keeps_handle_owners (o : ResizerOptions) (s : WidgetResize)
    (h : DomElement) (r : ResizerId) :
  map_get (viewElement o) (resizers s) = None →
  getResizerByHandle' s h = Some r →
  getResizerByHandle' (attachTo o s).1.2 h = Some r.
Proof.
  intros Hk Hr. rewrite attachTo_eq. unfold _getResizerByHandle in *. simpl.
  rewrite map_set_absent by done. unfold map_values. rewrite fmap_app.
  rewrite firstContaining_app. unfold map_values in Hr. by rewrite Hr.
Qed.

(** ** What each input leaves alone *)

Lemma runCallbacks_preserves {A} (f : WidgetResize → A) (t : Z) (e : Event)
    (cbs : list Callback) (s : WidgetResize) :
  (∀ cb s0, f (runCallback' t e cb s0).1 = f s0) →
  f (runCallbacks' t e cbs s).1 = f s.
Proof.
  intros H. revert s. induction cbs as [|cb cbs IH]; intros s; simpl; [done|].
  specialize (H cb s). destruct (runCallback' t e cb s) as [s1 c1].
  specialize (IH s1). destruct (runCallbacks' t e cbs s1) as [s2 c2].
  simpl in *. congruence.
Qed.

Lemma runCallbacks_calls (P : Call → Prop) (t : Z) (e : Event)
    (cbs : list Callback) (s : WidgetResize) :
  (∀ cb s0, Forall P (runCallback' t e cb s0).2) →
  Forall P (runCallbacks' t e cbs s).2.
Proof.
  intros H. revert s. induction cbs as [|cb cbs IH]; intros s; simpl; [done|].
  specialize (H cb s). destruct (runCallback' t e cb s) as [s1 c1].
  specialize (IH s1). destruct (runCallbacks' t e cbs s1) as [s2 c2].
  simpl in *. by apply Forall_app.
Qed.

Lemma runCallback_registry (t : Z) (e : Event) (cb : Callback)
    (s : WidgetResize) :
  (resizers (runCallback' t e cb s).1, heap (runCallback' t e cb s).1)
  = (resizers s, heap s).
Proof.
  destruct cb, e; simpl; try done; unfold_handlers;
    repeat case_match; simplify_eq/=; done.
Qed.

Lemma step_registry (ti : Z * Input) (s : WidgetResize) :
  isAttach ti.2 = false →
  (resizers (step' ti s).1, heap (step' ti s).1) = (resizers s, heap s).
Proof.
  destruct ti as [t [e| | |o|]]; intros Hi; try done.
  - rewrite step_dispatch. unfold fire.
    apply (runCallbacks_preserves (λ x, (resizers x, heap x))).
    intros cb s0. apply runCallback_registry.
  - simpl. unfold_handlers. repeat case_match; simplify_eq/=; done.
  - simpl. unfold_handlers. repeat case_match; simplify_eq/=; done.
Qed.

(** Only [attachTo] changes the registry and the resizers: pointer events,
    selection changes, UI updates, timeouts and [destroy] leave both as
    they are. *)
Theorem registry_changes_only_on_attachTo (tr : list (Z * Input))
    (s : WidgetResize) :
  forallb (λ ti, negb (isAttach ti.2)) tr = true →
  resizers (run' tr s).1 = resizers s ∧ heap (run' tr s).1 = heap s.
Proof.
  revert s. induction tr as [|ti tr IH]; intros s Htr; [done|].
  simpl in Htr. apply andb_prop in Htr as [Hti Htr].
  apply negb_true_iff in Hti. rewrite run_cons. simpl.
  destruct (IH (step' ti s).1 Htr) as [-> ->].
  pose proof (step_registry ti s Hti) as H. by simplify_eq.
Qed.

Lemma step_attach (t : Z) (o : ResizerOptions) (s : WidgetResize) :
  step' (t, CallAttachTo o) s = ((attachTo o s).1.2, (attachTo o s).2).
Proof. unfold step. by destruct (attachTo o s) as [[? ?] ?]. Qed.

Lemma step_keeps_entries (ti : Z * Input) (s : WidgetResize) :
  (∀ k, is_Some (map_get k (resizers s)) →
        is_Some (map_get k (resizers (step' ti s).1)))
  ∧ (∀ r x, heap s !! r = Some x → heap (step' ti s).1 !! r = Some x).
Proof.
  destruct (isAttach ti.2) eqn:Hi.
  - destruct ti as [t [e| | |o|]]; try done.
    rewrite step_attach, attachTo_eq. simpl. split.
    + intros k Hk. destruct (decide (k = viewElement o)) as [->|Hne].
      * rewrite map_get_set_eq. by eexists.
      * by rewrite map_get_set_ne.
    + intros r x Hr. rewrite lookup_app_l; [done|]. by eapply lookup_lt_Some.
  - pose proof (step_registry ti s Hi) as H. simplify_eq.
    rewrite H, H0. by split.
Qed.

(** The registry has no removal path: through any inputs, [destroy]
    included, a view element that is registered stays registered, and a
    resizer that was created stays as it is. *)
Theorem registry_never_shrinks (tr : list (Z * Input)) (s : WidgetResize) :
  (∀ k, is_Some (map_get k (resizers s)) →
        is_Some (map_get k (resizers (run' tr s).1)))
  ∧ (∀ r x, heap s !! r = Some x → heap (run' tr s).1 !! r = Some x).
Proof.
  revert s. induction tr as [|ti tr IH]; intros s; [done|].
  rewrite run_cons. simpl.
  destruct (step_keeps_entries ti s) as [H1 H2].
  destruct (IH (step' ti s).1) as [H3 H4]. split; auto.
Qed.

Lemma step_registryOk (ti : Z * Input) (s : WidgetResize) :
  registryOk s → registryOk (step' ti s).1.
Proof.
  intros [Hnd Hreg]. destruct (isAttach ti.2) eqn:Hi.
  - destruct ti as [t [e| | |o|]]; try done.
    rewrite step_attach. cbn [fst]. split.
    + rewrite attachTo_keeps_order.
      destruct (map_get (viewElement o) (resizers s)) eqn:Hk; [done|].
      apply NoDup_app. split; [done|]. split; [|apply NoDup_singleton].
      intros k Hk1 Hk2. apply list_elem_of_singleton in Hk2 as ->.
      by apply map_get_None_keys in Hk.
    + rewrite attachTo_eq. simpl. intros k r.
      destruct (decide (k = viewElement o)) as [->|Hne].
      * rewrite map_get_set_eq. intros [= <-]. exists o.
        split; [by apply list_lookup_middle|done].
      * rewrite map_get_set_ne by done. intros Hr.
        destruct (Hreg k r Hr) as (o' & Hh & Hv). exists o'.
        split; [|done]. rewrite lookup_app_l; [done|].
        by eapply lookup_lt_Some.
  - pose proof (step_registry ti s Hi) as H. simplify_eq.
    unfold registryOk. by rewrite H, H0.
Qed.

(** Through every history the registry stays sound: no view element is
    listed twice, every registered resizer is an attached resizer created
    for the view element it is registered under, and so no resizer is
    registered under two view elements. *)
Theorem registry_always_sound (tr : list (Z * Input)) :
  registryOk (run' tr init).1
  ∧ ∀ k1 k2 r,
      map_get k1 (resizers (run' tr init).1) = Some r →
      map_get k2 (resizers (run' tr init).1) = Some r →
      k1 = k2.
Proof.
  assert (∀ s, registryOk s → registryOk (run' tr s).1) as Hrun.
  { induction tr as [|ti tr IH]; intros s Hs; [done|].
    rewrite run_cons. simpl. by apply IH, step_registryOk. }
  assert (registryOk init) as H0.
  { split; [apply NoDup_nil_2|]. intros k r. done. }
  specialize (Hrun init H0). split; [done|].
  intros k1 k2 r H1 H2. destruct Hrun as [_ Hreg].
  destruct (Hreg k1 r H1) as (o1 & Hh1 & <-).
  destruct (Hreg k2 r H2) as (o2 & Hh2 & <-). congruence.
Qed.

Lemma step_neutral (ti : Z * Input) (s : WidgetResize) :
  isPress ti.2 || isRelease ti.2 = false →
  activeResizer (step' ti s).1 = activeResizer s
  ∧ Forall (λ c, isLifecycle c = false) (step' ti s).2.
Proof.
  destruct ti as [t i]. intros Hi.
  destruct i as [e| | |o|]; try (apply timers_and_calls_neutral; exact I).
  assert (match e with MouseDown _ | MouseUp _ => False | _ => True end)
    as He by (by destruct e).
  rewrite step_dispatch. unfold fire. split.
  - apply (runCallbacks_preserves activeResizer).
    intros cb s0. by apply runCallback_neutral.
  - apply runCallbacks_calls. intros cb s0. by apply runCallback_neutral.
Qed.

(** The active-resizer slot changes on press and release only, and only
    they call [begin] or [commit]: moves, selection changes, UI updates,
    timeouts, [attachTo] and [destroy] leave a drag in progress with the
    resizer it started on. *)
Theorem slot_changes_only_on_press_and_release (tr : list (Z * Input))
    (s : WidgetResize) :
  forallb (λ ti, negb (isPress ti.2 || isRelease ti.2)) tr = true →
  activeResizer (run' tr s).1 = activeResizer s
  ∧ Forall (λ c, isLifecycle c = false) (run' tr s).2.
Proof.
  revert s. induction tr as [|ti tr IH]; intros s Htr; [done|].
  simpl in Htr. apply andb_prop in Htr as [Hti Htr].
  apply negb_true_iff in Hti. rewrite run_cons. simpl.
  destruct (step_neutral ti s Hti) as [H1 H2].
  destruct (IH (step' ti s).1 Htr) as [H3 H4].
  split; [congruence|]. by apply Forall_app.
Qed.

Lemma runCallback_focus (t : Z) (e : Event) (cb : Callback)
    (s : WidgetResize) :
  isSelectionChange (Dispatch e) = false →
  _focusedResizer (runCallback' t e cb s).1 = _focusedResizer s
  ∧ Forall (λ c, ∀ r, c = Redraw r → _focusedResizer s = Some r)
      (runCallback' t e cb s).2.
Proof.
  intros He.
  destruct cb, e; simpl in *; try done; unfold_handlers;
    repeat case_match; simplify_eq/=;
    (split; [done|]); repeat constructor; intros; congruence.
Qed.

Lemma step_focus (ti : Z * Input) (s : WidgetResize) :
  isSelectionChange ti.2 = false →
  _focusedResizer (step' ti s).1 = _focusedResizer s
  ∧ Forall (λ c, ∀ r, c = Redraw r → _focusedResizer s = Some r)
      (step' ti s).2.
Proof.
  destruct ti as [t [e| | |o|]]; intros Hi.
  - rewrite step_dispatch. unfold fire.
    generalize (listenersOf (event_source e) (event_name e) (listeners s)).
    intros cbs. revert s. induction cbs as [|cb cbs IH]; intros s; simpl.
    + by split.
    + destruct (runCallback_focus t e cb s Hi) as [H1 H2].
      destruct (runCallback' t e cb s) as [s1 c1]; simpl in *.
      destruct (IH s1) as [H3 H4].
      destruct (runCallbacks' t e cbs s1) as [s2 c2]; simpl in *.
      split; [congruence|]. apply Forall_app. split; [done|].
      by rewrite <- H1.
  - simpl. unfold_handlers. repeat case_match; simplify_eq/=;
      (split; [done|]); repeat constructor; intros; congruence.
  - simpl. unfold_handlers. repeat case_match; simplify_eq/=;
      (split; [done|]); repeat constructor; intros; congruence.
  - rewrite step_attach, attachTo_eq. simpl. split; [done|].
    repeat constructor; intros; congruence.
  - simpl. by split.
Qed.

(** The focused resizer changes on a selection change only, and until the
    next one every [redraw], whether from a UI update, a viewport resize or
    a throttle timeout, goes to that resizer. *)
Theorem focus_changes_only_on_selection (tr : list (Z * Input))
    (s : WidgetResize) :
  forallb (λ ti, negb (isSelectionChange ti.2)) tr = true →
  _focusedResizer (run' tr s).1 = _focusedResizer s
  ∧ Forall (λ c, ∀ r, c = Redraw r → _focusedResizer s = Some r)
      (run' tr s).2.
Proof.
  revert s. induction tr as [|ti tr IH]; intros s Htr; [done|].
  simpl in Htr. apply andb_prop in Htr as [Hti Htr].
  apply negb_true_iff in Hti. rewrite run_cons. simpl.
  destruct (step_focus ti s Hti) as [H1 H2].
  destruct (IH (step' ti s).1 Htr) as [H3 H4].
  split; [congruence|]. apply Forall_app. split; [done|]. by rewrite <- H1.
Qed.

(** ** After [destroy] *)

Lemma step_destroyed (ti : Z * Input) (s : WidgetResize) :
  listeners s = stopListening Observer (listeners init) →
  listeners (step' ti s).1 = stopListening Observer (listeners init)
  ∧ activeResizer (step' ti s).1 = activeResizer s
  ∧ Forall (λ c, isLifecycle c = false) (step' ti s).2.
Proof.
  intros Hl. split.
  - rewrite step_listeners, Hl. destruct (ti.2); try done;
      apply stopListening_idemp.
  - destruct ti as [t i].
    destruct i as [e| | |o|]; try (apply timers_and_calls_neutral; exact I).
    rewrite step_dispatch. unfold fire. rewrite Hl, listenersOf_destroyed.
    destruct e as [d|d|d| | |ranges]; try done;
      rewrite runCallbacks_one; apply runCallback_neutral; exact I.
Qed.

(** Once the coordinator is destroyed, no press starts a drag and no
    release ends one: whatever happens next, [begin] and [commit] are never
    called and a resizer left in the slot stays there. *)
Theorem no_drag_after_destroy (tr0 tr : list (Z * Input)) :
  activeResizer (run' tr (destroy (run' tr0 init).1)).1
    = activeResizer (run' tr0 init).1
  ∧ Forall (λ c, isLifecycle c = false)
      (run' tr (destroy (run' tr0 init).1)).2.
Proof.
  assert (∀ s, listeners s = stopListening Observer (listeners init) →
            activeResizer (run' tr s).1 = activeResizer s
            ∧ Forall (λ c, isLifecycle c = false) (run' tr s).2) as Hrun.
  { induction tr as [|ti tr IH]; intros s Hl; [done|].
    rewrite run_cons. simpl.
    destruct (step_destroyed ti s Hl) as (H1 & H2 & H3).
    destruct (IH _ H1) as [H4 H5].
    split; [congruence|]. by apply Forall_app. }
  apply (Hrun (destroy (run' tr0 init).1)).
  unfold destroy. simpl.
  destruct (run_wired tr0 init init_wired) as [-> | ->]; [done|].
  apply stopListening_idemp.
Qed.

(** [destroy] cancels no timeout: a move that the throttle holds back when
    the coordinator is destroyed during a drag still reaches [updateSize]
    when its timeout fires. *)
Theorem destroy_keeps_pending_move (s : WidgetResize) (r : ResizerId)
    (w t due T : Z) (d : DomEventData) :
  activeResizer s = Some r →
  onMouseMove s = pendingMove w t due d →
  (due ≤ T)%Z → (w + 16 ≤ T)%Z →
  (step' (T, MouseMoveTimer) (destroy s)).2 = [UpdateSize r d].
Proof.
  intros Ha Hth Hdue Hw.
  by apply (timeout_runs_pending (destroy s) r w t due T d).
Qed.

(** ** More on the selection walk *)

Lemma walkNode_cases (m : JsMap ResizerId) (w : Walk) (n : ViewNode) :
  walkNode m w n = w
  ∨ (resizerBearing n = true
     ∧ walkNode m w n
       = (Some n,
          match map_get (identity n) m with Some r => Some r | None => w.2 end)).
Proof.
  destruct w as [lm fr]. unfold walkNode, resizerBearing.
  destruct (isWidget n), (isChild n lm), (hasClass n resizerClass); simpl;
    auto.
Qed.

Lemma walk_sound (m : JsMap ResizerId) (nodes : list ViewNode) (w : Walk)
    (r : ResizerId) :
  (fold_left (walkNode m) nodes w).2 = Some r →
  w.2 = Some r
  ∨ ∃ node, node ∈ nodes ∧ resizerBearing node = true
            ∧ map_get (identity node) m = Some r.
Proof.
  revert w. induction nodes as [|n nodes IH]; intros w; cbn [fold_left].
  - by left.
  - intros H. destruct (IH _ H) as [Hn|(node & Hin & Hb & Hm)].
    + destruct (walkNode_cases m w n) as [Heq|[Hb Heq]];
        rewrite Heq in Hn; [by left|]. simpl in Hn.
      destruct (map_get (identity n) m) as [r'|] eqn:Hm; [|by left].
      right. exists n. split; [apply list_elem_of_here|].
      split; [done|]. congruence.
    + right. exists node. split; [by apply list_elem_of_further|done].
Qed.

(** A resizer gets the focus only through a walked node: the focused
    resizer, if there is one, is the registry's resizer of a resizer-bearing
    widget among the nodes of the selection. *)
Theorem focus_comes_from_walked_widget (s : WidgetResize)
    (ranges : list (list ViewNode)) (r : ResizerId) :
  _focusedResizer (onSelection ranges s).1 = Some r →
  ∃ node, node ∈ concat ranges ∧ resizerBearing node = true
          ∧ map_get (identity node) (resizers s) = Some r.
Proof.
  unfold onSelection. simpl. rewrite walkRanges_concat. intros H.
  by destruct (walk_sound _ _ _ _ H) as [?|?].
Qed.

Lemma walk_lastMarked (m : JsMap ResizerId) (nodes : list ViewNode)
    (w : Walk) :
  (fold_left (walkNode m) nodes w).1 = w.1
  ∨ ∃ n, n ∈ nodes ∧ (fold_left (walkNode m) nodes w).1 = Some n.
Proof.
  revert w. induction nodes as [|n nodes IH]; intros w; cbn [fold_left].
  - by left.
  - destruct (IH (walkNode m w n)) as [Heq|(n' & Hin & Heq)].
    + destruct (walkNode_cases m w n) as [Hw|[_ Hw]].
      * left. by rewrite Heq, Hw.
      * right. exists n. split; [apply list_elem_of_here|].
        by rewrite Heq, Hw.
    + right. exists n'. split; [by apply list_elem_of_further|done].
Qed.

Lemma walk_keeps_candidate (m : JsMap ResizerId) (nodes : list ViewNode)
    (w : Walk) :
  is_Some w.2 → is_Some (fold_left (walkNode m) nodes w).2.
Proof.
  revert w. induction nodes as [|n nodes IH]; intros w Hw; cbn [fold_left].
  - done.
  - apply IH. destruct (walkNode_cases m w n) as [->|[_ ->]]; [done|].
    simpl. by destruct (map_get (identity n) m).
Qed.

(** A registered resizer-bearing widget of the selection none of whose
    ancestors is a walked node makes the focus non-null: some resizer is
    focused and redrawn, whatever else the selection holds. *)
Theorem top_level_widget_gives_focus (s : WidgetResize)
    (ranges : list (list ViewNode)) (u : ViewNode) :
  u ∈ concat ranges →
  resizerBearing u = true →
  is_Some (map_get (identity u) (resizers s)) →
  (∀ n, n ∈ concat ranges → identity n ∉ ancestors u) →
  ∃ r, onSelection ranges s = (set_focusedResizer (Some r) s, [Redraw r]).
Proof.
  intros Hin Hb [r Hr] Htop.
  assert (is_Some (walkRanges (resizers s) ranges).2) as [r' Hr'].
  { rewrite walkRanges_concat.
    apply list_elem_of_split in Hin as (pre & post & Hcat).
    rewrite Hcat, fold_left_app. cbn [fold_left].
    apply walk_keeps_candidate. rewrite walkNode_marks, Hr; [done..|].
    destruct (walk_lastMarked (resizers s) pre (None, None))
      as [->|(n & Hn & ->)]; [done|].
    simpl. apply bool_decide_eq_false. apply Htop.
    rewrite Hcat. apply elem_of_app. by left. }
  exists r'. unfold onSelection. by rewrite Hr'.
Qed.

(** Only the order of the walked nodes counts, not how the selection
    groups them into ranges. *)
Theorem selection_ignores_range_boundaries (s : WidgetResize)
    (ranges1 ranges2 : list (list ViewNode)) :
  concat ranges1 = concat ranges2 →
  onSelection ranges1 s = onSelection ranges2 s.
Proof.
  intros H. unfold onSelection. by rewrite !walkRanges_concat, H.
Qed.

(** ** The drag lifecycle *)

(** What one input can do to the slot and to the lifecycle of resizers. *)
Lemma step_lifecycle_shape (ti : Z * Input) (s : WidgetResize) :
  wired s →
  (activeResizer (step' ti s).1 = activeResizer s
   ∧ Forall (λ c, isLifecycle c = false) (step' ti s).2)
  ∨ (∃ d r, isResizeHandle (target d) = true
            ∧ getResizerByHandle' s (target d) = Some r
            ∧ step' ti s
              = (set_activeResizer (Some r) s, [Begin r (target d)]))
  ∨ step' ti s = (set_activeResizer None s, [])
  ∨ (∃ r, activeResizer s = Some r
          ∧ step' ti s = (set_activeResizer None s, [Commit r])).
Proof.
  intros Hw. destruct (isPress ti.2 || isRelease ti.2) eqn:Hi.
  - destruct ti as [t [[d|d|d| | |ranges]| | |o|]]; try done.
    + rewrite step_dispatch. unfold fire.
      destruct Hw as [-> | ->].
      * rewrite listenersOf_init, runCallbacks_one. simpl.
        unfold onMouseDown.
        destruct (isResizeHandle (target d)) eqn:Hh; simpl.
        -- destruct (_getResizerByHandle containsHandle s (target d))
             as [r|] eqn:Hr.
           ++ right. left. by exists d, r.
           ++ right. right. by left.
        -- left. by split.
      * rewrite listenersOf_destroyed. left. by split.
    + rewrite step_dispatch. unfold fire.
      destruct Hw as [-> | ->].
      * rewrite listenersOf_init, runCallbacks_one. simpl. unfold onMouseUp.
        destruct (activeResizer s) as [r|] eqn:Ha.
        -- right. right. right. by exists r.
        -- left. by split.
      * rewrite listenersOf_destroyed. left. by split.
  - left. by apply step_neutral.
Qed.

Lemma step_slot_begun (ti : Z * Input) (s : WidgetResize) (cs : list Call) :
  wired s →
  (∀ r, activeResizer s = Some r → isActive cs r = true) →
  ∀ r, activeResizer (step' ti s).1 = Some r →
       isActive (cs ++ (step' ti s).2) r = true.
Proof.
  intros Hw Hinv r.
  destruct (step_lifecycle_shape ti s Hw)
    as [[Ha Hn]|[(d & r0 & _ & _ & ->)|[->|(r0 & _ & ->)]]]; simpl.
  - rewrite Ha, isActive_app, lifecycle_neutral by done. apply Hinv.
  - intros [= ->]. rewrite isActive_app. simpl. by rewrite decide_True.
  - done.
  - done.
Qed.

(** The resizer in the slot is always in the middle of a drag: [begin]
    was called on it and [commit] was not called on it since. *)
Theorem slot_resizer_has_begun (tr : list (Z * Input)) (r : ResizerId) :
  activeResizer (run' tr init).1 = Some r →
  isActive (run' tr init).2 r = true.
Proof.
  assert (∀ s cs, wired s →
            (∀ r, activeResizer s = Some r → isActive cs r = true) →
            ∀ r, activeResizer (run' tr s).1 = Some r →
                 isActive (cs ++ (run' tr s).2) r = true) as Hrun.
  { induction tr as [|ti tr IH]; intros s cs Hw Hinv r0.
    - simpl. rewrite app_nil_r. apply Hinv.
    - rewrite run_cons. simpl. rewrite app_assoc. apply IH.
      + by apply step_wired.
      + by apply step_slot_begun. }
  apply (Hrun init [] init_wired). intros r0. done.
Qed.

Ltac elem_cases :=
  let Hin := fresh "Hin" in
  intros Hin; repeat (apply elem_of_cons in Hin as [Hin|Hin]);
  try (by apply elem_of_nil in Hin); congruence.

Lemma step_updateSize_on_slot (ti : Z * Input) (s : WidgetResize)
    (r : ResizerId) (d : DomEventData) :
  wired s →
  UpdateSize r d ∈ (step' ti s).2 → activeResizer s = Some r.
Proof.
  intros Hw. destruct ti as [t [e| | |o|]].
  - rewrite step_dispatch. unfold fire. destruct Hw as [-> | ->].
    + rewrite listenersOf_init, runCallbacks_one.
      destruct e; simpl; unfold_handlers; repeat case_match; simplify_eq/=;
        elem_cases.
    + rewrite listenersOf_destroyed.
      destruct e; try elem_cases;
        rewrite runCallbacks_one;
        simpl; unfold_handlers; repeat case_match; simplify_eq/=; elem_cases.
  - simpl; unfold_handlers; repeat case_match; simplify_eq/=; elem_cases.
  - simpl; unfold_handlers; repeat case_match; simplify_eq/=; elem_cases.
  - rewrite step_attach, attachTo_eq. simpl. elem_cases.
  - simpl. elem_cases.
Qed.

(** [updateSize] and [commit] are only ever called on the resizer that is
    in the slot, in the middle of its drag: never on a resizer on which
    [begin] was not called, or on which [commit] was called since. *)
Theorem updateSize_and_commit_only_during_drag (pre : list (Z * Input))
    (ti : Z * Input) (r : ResizerId) :
  Commit r ∈ (step' ti (run' pre init).1).2
  ∨ (∃ d, UpdateSize r d ∈ (step' ti (run' pre init).1).2) →
  activeResizer (run' pre init).1 = Some r
  ∧ isActive (run' pre init).2 r = true.
Proof.
  intros H.
  assert (activeResizer (run' pre init).1 = Some r) as Ha.
  { pose proof (run_wired pre init init_wired) as Hw.
    destruct H as [H|[d H]]; [|by eapply step_updateSize_on_slot].
    destruct (step_lifecycle_shape ti _ Hw)
      as [[_ Hn]|[(d & r0 & _ & _ & Heq)|[Heq|(r0 & Hr0 & Heq)]]];
      try (rewrite Heq in H; simpl in H).
    - rewrite Forall_forall in Hn. by specialize (Hn _ H).
    - apply list_elem_of_singleton in H. done.
    - by apply elem_of_nil in H.
    - apply list_elem_of_singleton in H. congruence. }
  split; [done|]. by apply slot_resizer_has_begun.
Qed.

(** [begin] is only ever called by a press on a resize handle, on the
    resizer that the lookup finds for this handle, a registered resizer
    that contains it. *)
Theorem begin_only_on_owner_of_pressed_handle (pre : list (Z * Input))
    (ti : Z * Input) (r : ResizerId) (h : DomElement) :
  Begin r h ∈ (step' ti (run' pre init).1).2 →
  (∃ d, ti.2 = Dispatch (MouseDown d) ∧ target d = h)
  ∧ isResizeHandle h = true
  ∧ getResizerByHandle' (run' pre init).1 h = Some r
  ∧ containsHandle r h = true
  ∧ r ∈ map_values (resizers (run' pre init).1).
Proof.
  intros H. pose proof (run_wired pre init init_wired) as Hw.
  destruct (isPress ti.2) eqn:Hp.
  - destruct ti as [t [[d|d|d| | |ranges]| | |o|]]; try done.
    destruct (step_lifecycle_shape (t, Dispatch (MouseDown d)) _ Hw)
      as [[_ Hn]|[(d0 & r0 & Hh & Hr & Heq)|[Heq|(r0 & Hr0 & Heq)]]];
      try (rewrite Heq in H; simpl in H).
    + rewrite Forall_forall in Hn. by specialize (Hn _ H).
    + apply list_elem_of_singleton in H. simplify_eq.
      assert (target d0 = target d) as Htd.
      { revert Heq. rewrite step_dispatch. unfold fire.
        destruct Hw as [-> | ->].
        - rewrite listenersOf_init, runCallbacks_one. simpl.
          unfold onMouseDown. destruct (isResizeHandle (target d)); simpl.
          + destruct (_getResizerByHandle containsHandle _ (target d));
              simpl; congruence.
          + congruence.
        - rewrite listenersOf_destroyed. simpl. congruence. }
      rewrite Htd in *. split; [by exists d|]. split; [done|].
      split; [done|].
      apply (getResizerByHandle_first _ (target d)) in Hr
        as (pre' & post & Hv & Hc & _).
      split; [done|]. rewrite Hv. apply elem_of_app. right.
      apply list_elem_of_here.
    + by apply elem_of_nil in H.
    + apply list_elem_of_singleton in H. congruence.
  - assert (isPress ti.2 || isRelease ti.2 = false
            ∨ isRelease ti.2 = true) as [Hn|Hrel].
    { rewrite Hp. simpl. destruct (isRelease ti.2); auto. }
    + destruct (step_neutral ti (run' pre init).1 Hn) as [_ Hf].
      rewrite Forall_forall in Hf. by specialize (Hf _ H).
    + destruct (step_lifecycle_shape ti _ Hw)
        as [[_ Hn]|[(d0 & r0 & Hh & Hr & Heq)|[Heq|(r0 & Hr0 & Heq)]]];
        try (rewrite Heq in H; simpl in H).
      * rewrite Forall_forall in Hn. by specialize (Hn _ H).
      * exfalso. destruct ti as [t [[d|d|d| | |ranges]| | |o|]]; try done.
        revert Heq. rewrite step_dispatch. unfold fire.
        destruct Hw as [-> | ->].
        -- rewrite listenersOf_init, runCallbacks_one. simpl.
           unfold onMouseUp. destruct (activeResizer _); simpl; congruence.
        -- rewrite listenersOf_destroyed. simpl. congruence.
      * by apply elem_of_nil in H.
      * apply list_elem_of_singleton in H. congruence.
Qed.

Lemma countCalls_app (p : Call → bool) (cs cs' : list Call) :
  countCalls p (cs ++ cs') = countCalls p cs + countCalls p cs'.
Proof. unfold countCalls. by rewrite filter_app, length_app. Qed.

Lemma countCalls_neutral (r : ResizerId) (cs : list Call) :
  Forall (λ c, isLifecycle c = false) cs →
  countCalls (isBeginOf r) cs = 0 ∧ countCalls (isCommitOf r) cs = 0.
Proof.
  unfold countCalls. induction 1 as [|c cs Hc _ [IH1 IH2]]; [done|].
  rewrite !filter_cons. destruct c; simpl in *; try done.
Qed.

Lemma step_commits_le_begins (ti : Z * Input) (s : WidgetResize)
    (cs : list Call) :
  wired s →
  (∀ r, activeResizer s = Some r → isActive cs r = true) →
  (∀ r, countCalls (isCommitOf r) cs + (if isActive cs r then 1 else 0)
        ≤ countCalls (isBeginOf r) cs) →
  ∀ r, countCalls (isCommitOf r) (cs ++ (step' ti s).2)
       + (if isActive (cs ++ (step' ti s).2) r then 1 else 0)
       ≤ countCalls (isBeginOf r) (cs ++ (step' ti s).2).
Proof.
  intros Hw Hslot Hinv r. specialize (Hinv r).
  rewrite !countCalls_app, isActive_app.
  destruct (step_lifecycle_shape ti s Hw)
    as [[_ Hn]|[(d & r0 & _ & _ & ->)|[->|(r0 & Hr0 & ->)]]]; simpl.
  - rewrite lifecycle_neutral by done.
    destruct (countCalls_neutral r _ Hn) as [-> ->]. lia.
  - unfold countCalls in *. rewrite !filter_cons, !filter_nil. simpl.
    destruct (decide (r0 = r)) as [->|Hne].
    + rewrite bool_decide_eq_true_2 by done. simpl.
      destruct (isActive cs r); lia.
    + rewrite bool_decide_eq_false_2 by done. simpl. lia.
  - unfold countCalls in *. simpl. lia.
  - unfold countCalls in *. rewrite !filter_cons, !filter_nil. simpl.
    destruct (decide (r0 = r)) as [->|Hne].
    + rewrite bool_decide_eq_true_2 by done. simpl.
      rewrite (Hslot r Hr0) in Hinv. lia.
    + rewrite bool_decide_eq_false_2 by done. simpl. lia.
Qed.

(** [commit] is never called more often on a resizer than [begin]: every
    [commit] ends a drag that a [begin] started, and a drag in progress
    has a [begin] that no [commit] has answered yet. *)
Theorem commits_never_exceed_begins (tr : list (Z * Input)) (r : ResizerId) :
  countCalls (isCommitOf r) (run' tr init).2
  + (if isActive (run' tr init).2 r then 1 else 0)
  ≤ countCalls (isBeginOf r) (run' tr init).2.
Proof.
  assert (∀ s cs, wired s →
            (∀ r, activeResizer s = Some r → isActive cs r = true) →
            (∀ r, countCalls (isCommitOf r) cs
                  + (if isActive cs r then 1 else 0)
                  ≤ countCalls (isBeginOf r) cs) →
            ∀ r, countCalls (isCommitOf r) (cs ++ (run' tr s).2)
                 + (if isActive (cs ++ (run' tr s).2) r then 1 else 0)
                 ≤ countCalls (isBeginOf r) (cs ++ (run' tr s).2)) as Hrun.
  { induction tr as [|ti tr IH]; intros s cs Hw Hslot Hinv r0.
    - simpl. rewrite app_nil_r. apply Hinv.
    - rewrite run_cons. simpl. rewrite app_assoc. apply IH.
      + by apply step_wired.
      + by apply step_slot_begun.
      + by apply step_commits_le_begins. }
  apply (Hrun init [] init_wired).
  - intros r0. done.
  - intros r0. unfold countCalls. simpl. lia.
Qed.

(** ** The redraw throttle *)

(** The UI update and the viewport resize go through one throttle: the
    first of the two redraws the focused resizer at once, the other one,
    coming within 200 ms, is held back, and the timeout redraws once
    more. *)
Theorem update_and_resize_share_throttle (s : WidgetResize) (r : ResizerId)
    (t0 t1 T : Z) :
  listeners s = listeners init →
  _focusedResizer s = Some r →
  timerId (redrawFocusedResizer s) = None →
  shouldInvoke 200 t0 (redrawFocusedResizer s) = true →
  (t0 ≤ t1 < t0 + 200)%Z →
  (t0 + 200 ≤ T)%Z →
  (run' [(t0, Dispatch Update); (t1, Dispatch Resize)] s).2 = [Redraw r]
  ∧ (run' [(t0, Dispatch Resize); (t1, Dispatch Update)] s).2 = [Redraw r]
  ∧ (run' [(t0, Dispatch Update); (t1, Dispatch Resize); (T, RedrawTimer)]
       s).2 = [Redraw r; Redraw r].
Proof.
  intros Hl Hf Htm Hidle Ht1 HT.
  assert (throttledRedraw t0 s
          = (set_redrawFocusedResizer
               {| lastArgs := None; lastCallTime := Some t0;
                  lastInvokeTime := t0; timerId := Some (t0 + 200)%Z |} s,
             [Redraw r])) as Hlead.
  { unfold throttledRedraw, throttle_call. rewrite Hidle. simpl.
    rewrite Htm. simpl. unfold redrawBody. simpl. by rewrite Hf. }
  assert (∀ s1, redrawFocusedResizer s1
                = {| lastArgs := None; lastCallTime := Some t0;
                     lastInvokeTime := t0; timerId := Some (t0 + 200)%Z |} →
            throttledRedraw t1 s1
            = (set_redrawFocusedResizer
                 {| lastArgs := Some (); lastCallTime := Some t1;
                    lastInvokeTime := t0; timerId := Some (t0 + 200)%Z |} s1,
               [])) as Hheld.
  { intros s1 Hs1. unfold throttledRedraw.
    by rewrite (throttle_call_coalesced 200 t1 t0 t0 (t0 + 200))
      by (rewrite ?Hs1; done || lia). }
  assert (∀ e, e = Update ∨ e = Resize →
            step' (t0, Dispatch e) s
            = (set_redrawFocusedResizer
                 {| lastArgs := None; lastCallTime := Some t0;
                    lastInvokeTime := t0; timerId := Some (t0 + 200)%Z |} s,
               [Redraw r])) as Hstep0.
  { intros e [-> | ->]; by rewrite step_dispatch, fire_alive. }
  assert (∀ e, e = Update ∨ e = Resize →
            step' (t1, Dispatch e)
              (set_redrawFocusedResizer
                 {| lastArgs := None; lastCallTime := Some t0;
                    lastInvokeTime := t0; timerId := Some (t0 + 200)%Z |} s)
            = (set_redrawFocusedResizer
                 {| lastArgs := Some (); lastCallTime := Some t1;
                    lastInvokeTime := t0; timerId := Some (t0 + 200)%Z |} s,
               [])) as Hstep1.
  { intros e He. rewrite step_dispatch, fire_alive by done.
    destruct He as [-> | ->]; cbn [runCallback]; by rewrite Hheld. }
  split; [|split].
  - rewrite run_cons, Hstep0 by auto. cbn [fst snd].
    rewrite run_cons, Hstep1 by auto. done.
  - rewrite run_cons, Hstep0 by auto. cbn [fst snd].
    rewrite run_cons, Hstep1 by auto. done.
  - rewrite run_cons, Hstep0 by auto. cbn [fst snd].
    rewrite run_cons, Hstep1 by auto. cbn [fst snd].
    rewrite run_cons. cbn [run fst snd app]. f_equal.
    simpl. unfold redrawTimeout, throttle_timer. simpl.
    assert ((t0 + 200 <=? T)%Z = true) as -> by (apply Z.leb_le; lia).
    unfold timerExpired, shouldInvoke. simpl.
    assert ((200 <=? T - t0)%Z = true) as -> by (apply Z.leb_le; lia).
    rewrite !orb_true_r. simpl. unfold redrawBody. simpl. by rewrite Hf.
Qed.

End Properties.

(** * The concrete editor *)

(** C1 fails as stated: two moves 5 ms apart open one window, and
    [updateSize] runs twice, first with the data of the first move; if the
    release comes before the timeout, it runs once, with the data of the
    first move and not of the last. *)
Lemma updateSize_leading_and_trailing :
  filter (λ c, isUpdateSize c = true)
    (demo_run demo_drag_late_release demo_editor).2
  = [UpdateSize 0 (pointerAt 3 5); UpdateSize 0 (pointerAt 3 9)]
  ∧ ¬ (length (filter (λ c, isUpdateSize c = true)
                 (demo_run demo_drag_late_release demo_editor).2) ≤ 1)%nat
  ∧ (demo_run demo_drag_early_release demo_editor).2
    = [Begin 0 10; UpdateSize 0 (pointerAt 3 5); Commit 0]
  ∧ pointerAt 3 5 ≠ pointerAt 3 9.
Proof.
  split; [by vm_compute|]. split; [vm_compute; lia|].
  split; [by vm_compute|]. discriminate.
Qed.

Lemma moves_in_one_throttle_window_witness :
  ((demo_run (moveEvents [(1100%Z, pointerAt 3 5); (1105%Z, pointerAt 3 9)]
                ++ [(1116%Z, MouseMoveTimer)])
      (demo_run [press 1000 10] demo_editor).1).2
   = [UpdateSize 0 (pointerAt 3 5); UpdateSize 0 (pointerAt 3 9)]
   ∧ (demo_run (moveEvents [(1133%Z, pointerAt 3 7)]
                  ++ [(1149%Z, MouseMoveTimer)])
        (demo_run [press 1000 10; move 1100 5; move 1105 9;
                   (1116%Z, MouseMoveTimer); move 1120 2] demo_editor).1).2
     = [UpdateSize 0 (pointerAt 3 7)])
  ∧ ((demo_run (moveEvents [(1100%Z, pointerAt 3 5); (1105%Z, pointerAt 3 9)]
                  ++ [(1111%Z, MouseMoveTimer)])
        (demo_run [move 1095 1; press 1098 10] demo_editor).1).2
     = [UpdateSize 0 (pointerAt 3 9)]
     ∧ (demo_run (moveEvents [(1120%Z, pointerAt 3 2); (1128%Z, pointerAt 3 4)]
                    ++ [(1136%Z, MouseMoveTimer)])
          (demo_run [press 1000 10; move 1100 5; move 1105 9;
                     (1116%Z, MouseMoveTimer)] demo_editor).1).2
       = [UpdateSize 0 (pointerAt 3 4)]).
Proof.
  destruct (moves_in_one_throttle_window demo_isResizeHandle
              demo_containsHandle) as [Hready Hheld].
  split; split.
  - apply (Hready (demo_run [press 1000 10] demo_editor).1 0 1100%Z
             (pointerAt 3 5) [(1105%Z, pointerAt 3 9)] 1116%Z);
      try reflexivity; vm_compute; discriminate.
  - apply (Hready (demo_run [press 1000 10; move 1100 5; move 1105 9;
                             (1116%Z, MouseMoveTimer); move 1120 2]
                     demo_editor).1 0 1133%Z (pointerAt 3 7) [] 1149%Z);
      try reflexivity; vm_compute; discriminate.
  - apply (Hheld (demo_run [move 1095 1; press 1098 10] demo_editor).1 0
             1100%Z (pointerAt 3 5) [(1105%Z, pointerAt 3 9)] 1111%Z);
      try reflexivity; vm_compute; discriminate.
  - apply (Hheld (demo_run [press 1000 10; move 1100 5; move 1105 9;
                            (1116%Z, MouseMoveTimer)] demo_editor).1 0
             1120%Z (pointerAt 3 2) [(1128%Z, pointerAt 3 4)] 1136%Z);
      try reflexivity; vm_compute; discriminate.
Defined.

(** C2 fails as stated: after [destroy] the selection-change and
    UI-update listeners are still registered and still run; a UI update
    after [destroy] redraws the focused resizer. *)
Lemma listeners_survive_destroy :
  listeners (destroy init) ≠ []
  ∧ {| listener := EditorUi; source := EditorUi; event := update;
       callback := RedrawFocusedResizer |} ∈ listeners (destroy init)
  ∧ {| listener := DowncastDispatcher; source := DowncastDispatcher;
       event := selection; callback := OnSelection |}
    ∈ listeners (destroy init)
  ∧ (demo_run [(10%Z, CallDestroy);
               (20%Z, Dispatch (Selection [[demo_outer]]));
               (500%Z, Dispatch Update)] demo_editor).2
    = [Redraw 0; Redraw 0].
Proof.
  split; [by vm_compute|]. split; [vm_compute; repeat constructor|].
  split; [vm_compute; repeat constructor|]. by vm_compute.
Qed.

(** C3 fails as stated: a second press without a release in between
    starts a drag on the second resizer while the first one was never
    committed. *)
Lemma two_resizers_active :
  (demo_run [press 1000 10; press 1001 11] demo_editor).2
  = [Begin 0 10; Begin 1 11]
  ∧ isActive (demo_run [press 1000 10; press 1001 11] demo_editor).2 0 = true
  ∧ isActive (demo_run [press 1000 10; press 1001 11] demo_editor).2 1 = true
  ∧ activeResizer (demo_run [press 1000 10; press 1001 11] demo_editor).1
    = Some 1.
Proof. by vm_compute. Qed.

Lemma at_most_one_active_resizer_witness :
  1 = 1
  ∧ activeResizer
      (demo_run [(0%Z, CallAttachTo (optionsFor 1));
                 (0%Z, CallAttachTo (optionsFor 2));
                 press 1000 10; move 1100 5; release 1110;
                 press 2000 11; move 2100 7] init).1 = Some 1.
Proof.
  apply (at_most_one_active_resizer demo_isResizeHandle demo_containsHandle
           [(0%Z, CallAttachTo (optionsFor 1));
            (0%Z, CallAttachTo (optionsFor 2));
            press 1000 10; move 1100 5; release 1110;
            press 2000 11; move 2100 7]
           [release 2200; press 3000 10] 1 1); reflexivity.
Defined.

(** C4 fails as stated: with the first resizer in the slot, a press on
    handle 19, which is a resize handle owned by no resizer, empties the
    slot. *)
Lemma press_on_unowned_handle_clears_slot :
  demo_isResizeHandle 19 = true
  ∧ _getResizerByHandle demo_containsHandle
      (demo_run [press 1000 10] demo_editor).1 19 = None
  ∧ activeResizer (demo_run [press 1000 10] demo_editor).1 = Some 0
  ∧ activeResizer
      (demo_step (press 1001 19) (demo_run [press 1000 10] demo_editor).1).1
    = None.
Proof. by vm_compute. Qed.

Lemma press_on_unowned_handle_witness :
  demo_step (press 1001 19) (demo_run [press 1000 10] demo_editor).1
  = (set_activeResizer None (demo_run [press 1000 10] demo_editor).1, []).
Proof.
  apply (press_on_unowned_handle demo_isResizeHandle demo_containsHandle
           1001%Z (pointerAt 19 0) (demo_run [press 1000 10] demo_editor).1);
    reflexivity.
Defined.

(** C5 fails as stated: the selection walks the outer widget 1, the
    widget 2 nested in it and then the sibling widget 3, and the focused
    resizer is the one of widget 3, not the one of widget 1. *)
Lemma sibling_takes_focus :
  resizerBearing demo_outer = true
  ∧ resizerBearing demo_nested = true
  ∧ isChild demo_nested (Some demo_outer) = true
  ∧ map_get (identity demo_outer) (resizers demo_editor3) = Some 0
  ∧ map_get (identity demo_nested) (resizers demo_editor3) = Some 1
  ∧ _focusedResizer (onSelection demo_selection demo_editor3).1 = Some 2
  ∧ _focusedResizer (onSelection demo_selection demo_editor3).1 ≠ Some 0.
Proof. repeat split; by vm_compute. Qed.

Lemma outer_widget_keeps_focus_witness :
  onSelection
    [[demo_outer; demo_text; demo_nested; demo_nested; demo_outer]]
    demo_editor
  = (set_focusedResizer (Some 0) demo_editor, [Redraw 0])
  ∧ _focusedResizer
      (onSelection
         [[demo_outer; demo_text; demo_nested; demo_nested; demo_outer]]
         demo_editor).1 ≠ Some 1.
Proof.
  apply (outer_widget_keeps_focus demo_editor
           [[demo_outer; demo_text; demo_nested; demo_nested; demo_outer]]
           [] demo_outer demo_nested
           [demo_text; demo_nested; demo_nested; demo_outer] 0 1);
    try reflexivity.
  - vm_compute. repeat constructor.
  - discriminate.
  - repeat (constructor;
            [first [left; reflexivity | right; left; reflexivity
                   | right; right; reflexivity]|]).
    constructor.
Defined.

Lemma release_commits_then_clears_witness :
  demo_step (release 1110) demo_editor = (demo_editor, [])
  ∧ demo_step (release 1110) (demo_run [press 1000 10] demo_editor).1
    = (set_activeResizer None (demo_run [press 1000 10] demo_editor).1,
       [Commit 0]).
Proof.
  split.
  - apply (release_commits_then_clears demo_isResizeHandle
             demo_containsHandle 1110%Z (pointerAt 3 0) demo_editor);
      reflexivity.
  - apply (release_commits_then_clears demo_isResizeHandle
             demo_containsHandle 1110%Z (pointerAt 3 0)
             (demo_run [press 1000 10] demo_editor).1); reflexivity.
Defined.

Lemma no_updateSize_after_release_witness :
  Forall (λ c, isUpdateSize c = false)
    (demo_run [(1116%Z, MouseMoveTimer); move 1120 1;
               (1136%Z, MouseMoveTimer); (1200%Z, Dispatch Update)]
       (demo_step (release 1110)
          (demo_run [(0%Z, CallAttachTo (optionsFor 1));
                     (0%Z, CallAttachTo (optionsFor 2));
                     press 1000 10; move 1100 5; move 1105 9] init).1).1).2.
Proof.
  apply (no_updateSize_after_release demo_isResizeHandle demo_containsHandle
           [(0%Z, CallAttachTo (optionsFor 1));
            (0%Z, CallAttachTo (optionsFor 2));
            press 1000 10; move 1100 5; move 1105 9]
           1110%Z (pointerAt 3 0) 0
           [(1116%Z, MouseMoveTimer); move 1120 1;
            (1136%Z, MouseMoveTimer); (1200%Z, Dispatch Update)]).
  - vm_compute. repeat constructor.
  - reflexivity.
Defined.

Lemma no_redraw_without_focused_resizer_witness :
  Forall (λ c, isRedraw c = false)
    (demo_run [(2000%Z, Dispatch Update); (2200%Z, RedrawTimer);
               (2300%Z, Dispatch Resize); (2500%Z, RedrawTimer)]
       (demo_step (1500%Z, Dispatch (Selection [[demo_text]]))
          (demo_run [(0%Z, CallAttachTo (optionsFor 1));
                     (0%Z, CallAttachTo (optionsFor 2));
                     (1000%Z, Dispatch (Selection [[demo_outer]]));
                     (1400%Z, Dispatch Update);
                     (1450%Z, Dispatch Update)] init).1).1).2.
Proof.
  apply (no_redraw_without_focused_resizer demo_isResizeHandle
           demo_containsHandle
           [(0%Z, CallAttachTo (optionsFor 1));
            (0%Z, CallAttachTo (optionsFor 2));
            (1000%Z, Dispatch (Selection [[demo_outer]]));
            (1400%Z, Dispatch Update);
            (1450%Z, Dispatch Update)]
           1500%Z [[demo_text]]
           [(2000%Z, Dispatch Update); (2200%Z, RedrawTimer);
            (2300%Z, Dispatch Resize); (2500%Z, RedrawTimer)]).
  - repeat constructor.
  - reflexivity.
Defined.

Lemma attachTo_registers_and_overwrites_witness :
  map_get 1 (resizers
    (attachTo (optionsFor 1) (attachTo (optionsFor 1) init).1.2).1.2)
  = Some 1
  ∧ length (resizers
      (attachTo (optionsFor 1) (attachTo (optionsFor 1) init).1.2).1.2) = 1
  ∧ heap (attachTo (optionsFor 1) (attachTo (optionsFor 1) init).1.2).1.2
      !! 0
    = Some {| options := optionsFor 1; attached := true |}.
Proof.
  destruct (attachTo_registers_and_overwrites (optionsFor 1) (optionsFor 1)
              init) as [_ Hsecond].
  destruct (Hsecond eq_refl) as (_ & Hget & Hlen & Hheap & _).
  split; [exact Hget|]. split; [exact Hlen|]. exact Hheap.
Defined.

(** C10 fails as stated: widget 3 is marked and has no resizer, widget 2
    sits below it.  When widget 1 is walked after them it takes the focus,
    so the candidate chosen before widget 3, none, is not kept; and when
    widget 1 is walked between the two, widget 2 is not skipped and takes
    the focus. *)
Lemma later_widget_replaces_candidate :
  resizerBearing demo_sibling = true
  ∧ map_get (identity demo_sibling) (resizers demo_editor) = None
  ∧ resizerBearing demo_inner = true
  ∧ isChild demo_inner (Some demo_sibling) = true
  ∧ _focusedResizer
      (onSelection [[demo_sibling; demo_inner; demo_outer]] demo_editor).1
    = Some 0
  ∧ _focusedResizer
      (onSelection [[demo_sibling]; [demo_outer]; [demo_inner]]
         demo_editor).1
    = Some 1.
Proof. repeat split; by vm_compute. Qed.

Lemma unregistered_widget_shadows_descendants_witness :
  _focusedResizer
    (onSelection [[demo_outer]; [demo_sibling; demo_text; demo_inner]]
       demo_editor).1
  = Some 0.
Proof.
  apply (unregistered_widget_shadows_descendants demo_editor
           [[demo_outer]; [demo_sibling; demo_text; demo_inner]]
           [demo_outer] demo_sibling [demo_text; demo_inner]);
    try reflexivity.
  repeat (constructor; [first [left; reflexivity | right; reflexivity]|]).
  constructor.
Defined.

(** * The concrete editor, continued *)

Lemma press_off_handle_ignored_witness :
  demo_step (press 1001 3) (demo_run [press 1000 10] demo_editor).1
  = ((demo_run [press 1000 10] demo_editor).1, []).
Proof.
  apply (press_off_handle_ignored demo_isResizeHandle demo_containsHandle
           1001%Z (pointerAt 3 0) (demo_run [press 1000 10] demo_editor).1);
    reflexivity.
Defined.

Lemma press_on_owned_handle_begins_witness :
  demo_step (press 1000 11) demo_editor
  = (set_activeResizer (Some 1) demo_editor, [Begin 1 11])
  ∧ demo_containsHandle 1 11 = true.
Proof.
  apply (press_on_owned_handle_begins demo_isResizeHandle demo_containsHandle
           1000%Z (pointerAt 11 0) demo_editor 1); reflexivity.
Defined.

Lemma click_on_handle_round_trip_witness :
  demo_run [press 1000 10; release 1050] demo_editor
  = (demo_editor, [Begin 0 10; Commit 0]).
Proof.
  apply (click_on_handle_round_trip demo_isResizeHandle demo_containsHandle
           1000%Z 1050%Z (pointerAt 10 0) (pointerAt 3 0) demo_editor 0);
    reflexivity.
Defined.

Lemma attachTo_keeps_handle_owners_witness :
  _getResizerByHandle demo_containsHandle
    (attachTo (optionsFor 3) demo_editor).1.2 11 = Some 1.
Proof.
  apply (attachTo_keeps_handle_owners demo_containsHandle (optionsFor 3)
           demo_editor 11 1); reflexivity.
Defined.

Lemma registry_changes_only_on_attachTo_witness :
  resizers (demo_run [press 1000 10; move 1100 5; release 1110;
                      (1200%Z, CallDestroy);
                      (1300%Z, Dispatch (Selection [[demo_outer]]))]
              demo_editor).1 = resizers demo_editor
  ∧ heap (demo_run [press 1000 10; move 1100 5; release 1110;
                    (1200%Z, CallDestroy);
                    (1300%Z, Dispatch (Selection [[demo_outer]]))]
            demo_editor).1 = heap demo_editor.
Proof.
  apply (registry_changes_only_on_attachTo demo_isResizeHandle
           demo_containsHandle
           [press 1000 10; move 1100 5; release 1110; (1200%Z, CallDestroy);
            (1300%Z, Dispatch (Selection [[demo_outer]]))] demo_editor).
  reflexivity.
Defined.

Lemma registry_never_shrinks_witness :
  is_Some (map_get 1
    (resizers (demo_run [(10%Z, CallAttachTo (optionsFor 1));
                         (20%Z, CallDestroy)] demo_editor).1)).
Proof.
  apply (registry_never_shrinks demo_isResizeHandle demo_containsHandle
           [(10%Z, CallAttachTo (optionsFor 1)); (20%Z, CallDestroy)]
           demo_editor).
  exists 0. reflexivity.
Defined.

Lemma slot_changes_only_on_press_and_release_witness :
  activeResizer
    (demo_run [move 1100 5; (1110%Z, Dispatch (Selection [[demo_nested]]));
               (1116%Z, MouseMoveTimer); (1120%Z, Dispatch Update);
               (1130%Z, CallAttachTo (optionsFor 3)); (1140%Z, CallDestroy)]
       (demo_run [press 1000 10] demo_editor).1).1 = Some 0.
Proof.
  apply (slot_changes_only_on_press_and_release demo_isResizeHandle
           demo_containsHandle
           [move 1100 5; (1110%Z, Dispatch (Selection [[demo_nested]]));
            (1116%Z, MouseMoveTimer); (1120%Z, Dispatch Update);
            (1130%Z, CallAttachTo (optionsFor 3)); (1140%Z, CallDestroy)]
           (demo_run [press 1000 10] demo_editor).1).
  reflexivity.
Defined.

Lemma focus_changes_only_on_selection_witness :
  _focusedResizer
    (demo_run [press 1000 10; move 1100 5; release 1110;
               (1200%Z, Dispatch Update); (1300%Z, CallDestroy);
               (1400%Z, RedrawTimer)]
       (demo_step (0%Z, Dispatch (Selection [[demo_outer]])) demo_editor).1).1
  = Some 0.
Proof.
  apply (focus_changes_only_on_selection demo_isResizeHandle
           demo_containsHandle
           [press 1000 10; move 1100 5; release 1110;
            (1200%Z, Dispatch Update); (1300%Z, CallDestroy);
            (1400%Z, RedrawTimer)]
           (demo_step (0%Z, Dispatch (Selection [[demo_outer]]))
              demo_editor).1).
  reflexivity.
Defined.

Lemma destroy_keeps_pending_move_witness :
  (demo_step (1116%Z, MouseMoveTimer)
     (destroy (demo_run [press 1000 10; move 1100 5; move 1105 9]
                 demo_editor).1)).2
  = [UpdateSize 0 (pointerAt 3 9)].
Proof.
  apply (destroy_keeps_pending_move demo_isResizeHandle demo_containsHandle
           (demo_run [press 1000 10; move 1100 5; move 1105 9] demo_editor).1
           0 1100%Z 1105%Z 1116%Z 1116%Z (pointerAt 3 9));
    try reflexivity; vm_compute; discriminate.
Defined.

Lemma focus_comes_from_walked_widget_witness :
  ∃ node, node ∈ concat demo_selection ∧ resizerBearing node = true
          ∧ map_get (identity node) (resizers demo_editor3) = Some 2.
Proof.
  apply (focus_comes_from_walked_widget demo_editor3 demo_selection 2).
  reflexivity.
Defined.

Lemma top_level_widget_gives_focus_witness :
  ∃ r, onSelection [[demo_text; demo_outer; demo_nested]] demo_editor
       = (set_focusedResizer (Some r) demo_editor, [Redraw r]).
Proof.
  apply (top_level_widget_gives_focus demo_editor
           [[demo_text; demo_outer; demo_nested]] demo_outer).
  - vm_compute. repeat constructor.
  - reflexivity.
  - exists 0. reflexivity.
  - intros n Hn. simpl in Hn.
    repeat (apply elem_of_cons in Hn as [->|Hn]);
      [| | |by apply elem_of_nil in Hn];
      simpl; intros H; apply list_elem_of_singleton in H; discriminate.
Defined.

Lemma selection_ignores_range_boundaries_witness :
  onSelection [[demo_outer; demo_nested]; [demo_sibling]] demo_editor3
  = onSelection [[demo_outer]; [demo_nested; demo_sibling]] demo_editor3.
Proof.
  apply (selection_ignores_range_boundaries demo_editor3
           [[demo_outer; demo_nested]; [demo_sibling]]
           [[demo_outer]; [demo_nested; demo_sibling]]).
  reflexivity.
Defined.

Lemma slot_resizer_has_begun_witness :
  isActive
    (demo_run [(0%Z, CallAttachTo (optionsFor 1));
               (0%Z, CallAttachTo (optionsFor 2));
               press 1000 10; release 1100; press 1200 11; move 1300 4]
       init).2 1 = true.
Proof.
  apply (slot_resizer_has_begun demo_isResizeHandle demo_containsHandle
           [(0%Z, CallAttachTo (optionsFor 1));
            (0%Z, CallAttachTo (optionsFor 2));
            press 1000 10; release 1100; press 1200 11; move 1300 4] 1).
  reflexivity.
Defined.

Lemma updateSize_and_commit_only_during_drag_witness :
  activeResizer
    (demo_run [(0%Z, CallAttachTo (optionsFor 1));
               (0%Z, CallAttachTo (optionsFor 2));
               press 1000 10; move 1100 5] init).1 = Some 0
  ∧ isActive
      (demo_run [(0%Z, CallAttachTo (optionsFor 1));
                 (0%Z, CallAttachTo (optionsFor 2));
                 press 1000 10; move 1100 5] init).2 0 = true.
Proof.
  apply (updateSize_and_commit_only_during_drag demo_isResizeHandle
           demo_containsHandle
           [(0%Z, CallAttachTo (optionsFor 1));
            (0%Z, CallAttachTo (optionsFor 2));
            press 1000 10; move 1100 5] (release 1110) 0).
  left. vm_compute. repeat constructor.
Defined.

Lemma begin_only_on_owner_of_pressed_handle_witness :
  demo_isResizeHandle 11 = true
  ∧ _getResizerByHandle demo_containsHandle demo_editor 11 = Some 1
  ∧ demo_containsHandle 1 11 = true
  ∧ 1 ∈ map_values (resizers demo_editor).
Proof.
  apply (begin_only_on_owner_of_pressed_handle demo_isResizeHandle
           demo_containsHandle
           [(0%Z, CallAttachTo (optionsFor 1));
            (0%Z, CallAttachTo (optionsFor 2))] (press 1000 11) 1 11).
  vm_compute. repeat constructor.
Defined.

Lemma update_and_resize_share_throttle_witness :
  (demo_run [(1000%Z, Dispatch Update); (1050%Z, Dispatch Resize);
             (1200%Z, RedrawTimer)]
     (demo_step (0%Z, Dispatch (Selection [[demo_outer]])) demo_editor).1).2
  = [Redraw 0; Redraw 0].
Proof.
  apply (update_and_resize_share_throttle demo_isResizeHandle
           demo_containsHandle
           (demo_step (0%Z, Dispatch (Selection [[demo_outer]]))
              demo_editor).1 0 1000%Z 1050%Z 1200%Z);
    try reflexivity; lia.
Defined.
